(** * SolanaWalletAnalyzer: the wallet accounting engine of [bot.py]

    A shallow embedding of the price lookup with its cache ([token_price]),
    the FIFO lot accounting of [calculate], the timeframe conversion
    ([timeframe_to_seconds]) and the filtering and ranking done in [main].

    Modelling conventions.
    - Python numbers (the floats produced by [convert_to_decimal], the prices
      read from JSON, the integer counters) are idealised as exact rationals
      in canonical form ([Qc]); integer timestamps are [Z].  Rounding of
      binary floating point is outside that model.
    - Where rounding decides what the code does, the code is modelled a
      second time on binary64: the [while] loop of a disposal is
      [sell_loop64], on the kernel's IEEE 754 doubles, next to its
      exact-rational reading [sell_loop].
    - Python exceptions are values of [result]; a [try]/[except] is a match.
    - The module-level dictionary [token_prices], the HTTP peer and the
      clock form an explicit [world] that every effectful function threads.
    - [print] calls and the rewriting of the cache file ([save_data]) have no
      influence on the values computed and are left out. *)

From Stdlib Require Import Floats.
From Stdlib Require Import QArith Qcanon Qcabs Lqa ZArith List String Ascii Sorted.
From stdpp Require Import base numbers list strings gmap pretty.
Import ListNotations.

Local Open Scope string_scope.
Local Open Scope Z_scope.
Local Open Scope list_scope.

(** ** Python values and exceptions *)

Inductive exn : Set :=
  | TypeError
  | ValueError
  | KeyError
  | IndexError
  | AttributeError
  | ZeroDivisionError
  | OverflowError
  | ClientError.

Inductive result (A : Type) : Type :=
  | Ok (a : A)
  | Raise (e : exn).
Arguments Ok {A} a.
Arguments Raise {A} e.

(** Sequencing: the first exception raised aborts what follows. *)
#[global] Instance result_ret : MRet result := fun A a => Ok a.
#[global] Instance result_bind : MBind result := fun A B k r =>
  match r with
  | Ok a => k a
  | Raise e => Raise e
  end.

Local Set Warnings "-register-all".

(** The values [json.loads] and [response.json()] produce.  An object is
    kept as the list of its members, each key once. *)
Inductive json : Type :=
  | JNull
  | JBool (b : bool)
  | JNum (q : Qc)
  | JStr (s : string)
  | JArr (l : list json)
  | JObj (l : list (string * json)).

Fixpoint assoc {A} (k : string) (l : list (string * A)) : option A :=
  match l with
  | [] => None
  | (k', v) :: l' => if decide (k = k') then Some v else assoc k l'
  end.

(** [bool(v)] *)
Definition truthy (v : json) : bool :=
  match v with
  | JNull => false
  | JBool b => b
  | JNum q => negb (bool_decide (q = 0%Qc))
  | JStr s => negb (bool_decide (s = ""))
  | JArr l => negb (bool_decide (length l = 0%nat))
  | JObj l => negb (bool_decide (length l = 0%nat))
  end.

(** [v.get(k, dflt)]: only a dict has the method. *)
Definition dict_get (v : json) (k : string) (dflt : json) : result json :=
  match v with
  | JObj l => Ok (default dflt (assoc k l))
  | _ => Raise AttributeError
  end.

(** [v[k]] for a string key: a missing key is a [KeyError], indexing
    anything but a dict with a string is a [TypeError]. *)
Definition dict_item (v : json) (k : string) : result json :=
  match v with
  | JObj l => match assoc k l with
              | Some x => Ok x
              | None => Raise KeyError
              end
  | _ => Raise TypeError
  end.

(** A value used as a number in [-], [>] against a float: ints, floats and
    bools are numbers, everything else raises [TypeError]. *)
Definition py_num (v : json) : result Qc :=
  match v with
  | JNum q => Ok q
  | JBool b => Ok (if b then 1%Qc else 0%Qc)
  | _ => Raise TypeError
  end.

(** [a / b] *)
Definition py_div (a b : Qc) : result Qc :=
  if decide (b = 0%Qc) then Raise ZeroDivisionError else Ok (a / b)%Qc.

(** [min(a, b)]: the first argument unless the second is smaller. *)
Definition py_min (a b : Qc) : Qc :=
  if decide (b < a)%Qc then b else a.

(** ** The world: price cache, HTTP peer, clock *)

Inductive response : Type :=
  | Response (status : Z) (body : result json).

Record world : Type := {
  (** the global [token_prices]: token -> str(timestamp) -> price *)
  token_prices : gmap string (gmap string json);
  (** the URLs requested so far, oldest first *)
  requests : list string;
  (** the peer: what [session.get] yields for a URL after a given history
      of requests; [Raise] is a transport failure *)
  server : list string -> string -> result response;
  (** [int(time.time())] *)
  now : Z
}.

Definition set_token_prices (c : gmap string (gmap string json)) (w : world) : world :=
  {| token_prices := c; requests := requests w; server := server w; now := now w |}.

Definition log_request (url : string) (w : world) : world :=
  {| token_prices := token_prices w; requests := requests w ++ [url];
     server := server w; now := now w |}.

Definition BASE_URL : string := "https://public-api.birdeye.so".

(** [fetch]: the body of a 200 response, [None] for any other status. *)
Definition fetch (w : world) (url : string) : world * result (option json) :=
  (log_request url w,
   match server w (requests w) url with
   | Raise e => Raise e
   | Ok (Response status body) =>
       if decide (status = 200) then (j ← body; Ok (Some j)) else Ok None
   end).

(** The body of the [try] in [token_price]: [Ok (Some price)] when the
    success branch is taken, [Ok None] for the [else] branch. *)
Definition price_of_data (data : option json) : result (option json) :=
  match data with
  | None => Ok None
  | Some data =>
      if truthy data then
        ok ← dict_get data "success" JNull;
        if truthy ok then
          d ← dict_item data "data";
          price ← dict_get d "value" (JNum 0%Qc);
          Ok (Some price)
        else Ok None
      else Ok None
  end.

Definition price_url (token timestamp : string) : string :=
  (BASE_URL ++ "/defi/historical_price_unix?address=" ++ token ++ "&unixtime=" ++ timestamp)%string.

Definition token_price (w : world) (timestamp : Z) (token : string) : world * result json :=
  let timestamp := pretty timestamp in
  let w :=
    match token_prices w !! token with
    | None => set_token_prices (<[token := ∅]> (token_prices w)) w
    | Some _ => w
    end in
  let entry := default ∅ (token_prices w !! token) in
  match entry !! timestamp with
  | Some price => (w, Ok price)
  | None =>
      let '(w, data) := fetch w (price_url token timestamp) in
      match data with
      | Raise e => (w, Raise e)
      | Ok data =>
          match price_of_data data with
          | Ok (Some price) =>
              (set_token_prices (<[token := <[timestamp := price]> entry]> (token_prices w)) w,
               Ok price)
          | Ok None => (w, Ok (JNum 0%Qc))
          | Raise _ => (w, Ok (JNum 0%Qc))
          end
      end
  end.

(** ** The accounting engine: [calculate] *)

(** A normalised swap, as [wallet_history] builds it. *)
Record transaction : Type := {
  name : string;
  token : string;
  timestamp : Z;
  token_amount : Qc;
  solana_amount : Qc
}.

(** A lot is the tuple [(buy_amount, buy_price_usd, buy_time)]. *)
Record lot : Type := Lot {
  buy_amount : Qc;
  buy_price_usd : Qc;
  buy_time : Z
}.

(** [holdings] is a [defaultdict(list)]: keys in insertion order, and a read
    of a missing key inserts the empty list. *)
Abbreviation inventory := (list (string * list lot)).

Definition queue (h : inventory) (tok : string) : list lot :=
  default [] (assoc tok h).

Definition touch (h : inventory) (tok : string) : inventory :=
  match assoc tok h with
  | Some _ => h
  | None => h ++ [(tok, [])]
  end.

Fixpoint set_queue (h : inventory) (tok : string) (q : list lot) : inventory :=
  match h with
  | [] => []
  | (k, v) :: h' =>
      if decide (tok = k) then (k, q) :: h' else (k, v) :: set_queue h' tok q
  end.

(** The accumulators of [calculate] that live across events. *)
Record ledger : Type := {
  holdings : inventory;
  realized_pnl : Qc;
  pnl_records : list Qc;
  total_profit_usd : Qc;
  wins : nat;
  total_sales : nat;
  total_holding_time : Qc
}.

Definition empty_ledger : ledger :=
  {| holdings := []; realized_pnl := 0%Qc; pnl_records := [];
     total_profit_usd := 0%Qc; wins := 0%nat; total_sales := 0%nat;
     total_holding_time := 0%Qc |}.

Definition with_holdings (h : inventory) (l : ledger) : ledger :=
  {| holdings := h; realized_pnl := realized_pnl l; pnl_records := pnl_records l;
     total_profit_usd := total_profit_usd l; wins := wins l;
     total_sales := total_sales l; total_holding_time := total_holding_time l |}.

Definition count_sale (l : ledger) : ledger :=
  {| holdings := holdings l; realized_pnl := realized_pnl l;
     pnl_records := pnl_records l; total_profit_usd := total_profit_usd l;
     wins := wins l; total_sales := S (total_sales l);
     total_holding_time := total_holding_time l |}.

(** Lines 236-241: booking one finished disposal. *)
Definition record_sale (pnl_usd holding_time : Qc) (l : ledger) : ledger :=
  {| holdings := holdings l;
     realized_pnl := (realized_pnl l + pnl_usd)%Qc;
     pnl_records := pnl_records l ++ [pnl_usd];
     total_profit_usd := (total_profit_usd l + pnl_usd)%Qc;
     wins := if decide (0 < pnl_usd)%Qc then S (wins l) else wins l;
     total_sales := total_sales l;
     total_holding_time := (total_holding_time l + holding_time)%Qc |}.

(** The [while] loop of a disposal, on the queue of the token sold.  Each
    unfolding of the loop costs one unit of [fuel]; [None] means the fuel
    ran out.  The loop yields the queue as the iterations left it, and
    either the pair [(pnl_usd, holding_time)] or the exception that
    interrupted an iteration (the lot popped by that iteration is gone).
    The subtractions are exact here; [sell_loop64] is the same loop with
    the rounding of binary64. *)
Fixpoint sell_loop (fuel : nat) (token_price_usd_sell : json) (timestamp : Z)
    (original_amount_to_sell amount_to_sell pnl_usd holding_time : Qc)
    (q : list lot) : option (list lot * result (Qc * Qc)) :=
  match fuel with
  | O => None
  | S fuel =>
      if decide (0 < amount_to_sell)%Qc then
        match q with
        | [] => Some (q, Ok (pnl_usd, holding_time))
        | Lot buy_amount buy_price_usd buy_time :: q =>
            let sell_amount := py_min amount_to_sell buy_amount in
            match
              sell ← py_num token_price_usd_sell;
              let pnl_usd := (pnl_usd + (sell - buy_price_usd) * sell_amount)%Qc in
              share ← py_div sell_amount original_amount_to_sell;
              Ok (pnl_usd, (holding_time + Qc_of_Z (timestamp - buy_time) * share)%Qc)
            with
            | Raise e => Some (q, Raise e)
            | Ok (pnl_usd, holding_time) =>
                let amount_to_sell := (amount_to_sell - sell_amount)%Qc in
                let q :=
                  if decide (sell_amount < buy_amount)%Qc
                  then Lot (buy_amount - sell_amount)%Qc buy_price_usd buy_time :: q
                  else q in
                sell_loop fuel token_price_usd_sell timestamp original_amount_to_sell
                  amount_to_sell pnl_usd holding_time q
            end
        end
      else Some (q, Ok (pnl_usd, holding_time))
  end.

(** The loop with the fuel that always suffices (see [sell_loop_fuel]). *)
Definition sell_lots (token_price_usd_sell : json) (timestamp : Z)
    (original_amount_to_sell : Qc) (q : list lot) : option (list lot * result (Qc * Qc)) :=
  sell_loop (S (length q)) token_price_usd_sell timestamp original_amount_to_sell
    original_amount_to_sell 0%Qc 0%Qc q.

(** One iteration of [for tx in transactions], with its [try]/[except]:
    an exception leaves what was already written to the accumulators. *)
Definition process (s : world * ledger) (tx : transaction) : world * ledger :=
  let '(w, l) := s in
  if decide (0 < token_amount tx)%Qc then
    let '(w, usd_value) := token_price w (timestamp tx) (token tx) in
    match usd_value ≫= py_num with
    | Raise _ => (w, l)
    | Ok usd =>
        if decide (0 < usd)%Qc then
          let h := touch (holdings l) (token tx) in
          (w, with_holdings
                (set_queue h (token tx)
                   (queue h (token tx) ++ [Lot (token_amount tx) usd (timestamp tx)])) l)
        else (w, l)
    end
  else if decide (token_amount tx < 0)%Qc then
    let original_amount_to_sell := Qcabs (token_amount tx) in
    let '(w, sell) := token_price w (timestamp tx) (token tx) in
    match sell with
    | Raise _ => (w, l)
    | Ok token_price_usd_sell =>
        let l := count_sale l in
        let h := touch (holdings l) (token tx) in
        match sell_lots token_price_usd_sell (timestamp tx) original_amount_to_sell
                (queue h (token tx)) with
        | None => (w, l)
        | Some (q, r) =>
            let l := with_holdings (set_queue h (token tx) q) l in
            match r with
            | Raise _ => (w, l)
            | Ok (pnl_usd, holding_time) => (w, record_sale pnl_usd holding_time l)
            end
        end
    end
  else (w, l).

Definition run (s : world * ledger) (transactions : list transaction) : world * ledger :=
  fold_left process transactions s.

(** The dictionary [calculate] returns.  [row_realized_pnl] is its key
    ["realized_pnl"] (the name is taken by the accumulator). *)
Record wallet_metrics : Type := {
  wallet : string;
  total_pnl_usd : Qc;
  row_realized_pnl : Qc;
  unrealized_pnl : Qc;
  win_rate : Qc;
  average_holding_time_seconds : Qc
}.

(** [for amount, buy_price, _ in buys] *)
Fixpoint mark_lots (current_price : json) (unrealized_pnl : Qc) (buys : list lot) : result Qc :=
  match buys with
  | [] => Ok unrealized_pnl
  | Lot amount buy_price _ :: buys =>
      current ← py_num current_price;
      mark_lots current_price (unrealized_pnl + (current - buy_price) * amount)%Qc buys
  end.

(** [for token, buys in holdings.items()]: outside any [try], so a failing
    lookup or a price that is not a number ends [calculate]. *)
Fixpoint mark_to_market (w : world) (h : inventory) (unrealized_pnl : Qc) : world * result Qc :=
  match h with
  | [] => (w, Ok unrealized_pnl)
  | (token, buys) :: h =>
      let '(w, current_price) := token_price w (now w) token in
      match current_price ≫= (fun p => mark_lots p unrealized_pnl buys) with
      | Raise e => (w, Raise e)
      | Ok unrealized_pnl => mark_to_market w h unrealized_pnl
      end
  end.

(** The [return] expression. *)
Definition final_metrics (wallet : string) (l : ledger) (unrealized_pnl : Qc) : result wallet_metrics :=
  win_rate ←
    (if decide (total_sales l = 0%nat) then Ok 0%Qc
     else r ← py_div (Qc_of_Z (Z.of_nat (wins l))) (Qc_of_Z (Z.of_nat (total_sales l)));
          Ok (r * Qc_of_Z 100)%Qc);
  average ←
    (if decide (total_sales l = 0%nat) then Ok 0%Qc
     else py_div (total_holding_time l) (Qc_of_Z (Z.of_nat (total_sales l))));
  Ok {| wallet := wallet;
        total_pnl_usd := (realized_pnl l + unrealized_pnl)%Qc;
        row_realized_pnl := realized_pnl l;
        unrealized_pnl := unrealized_pnl;
        win_rate := win_rate;
        average_holding_time_seconds := average |}.

Definition calculate (w : world) (transactions : list transaction) (wallet : string)
    : world * result wallet_metrics :=
  let '(w, l) := run (w, empty_ledger) transactions in
  let '(w, unrealized_pnl) := mark_to_market w (holdings l) 0%Qc in
  (w, unrealized_pnl ≫= final_metrics wallet l).

(** ** The screener: the comprehensions and the sort of [main] *)

(** [[w for w, b in zip(wallets, results) if b > minimum_wallet_capital]] *)
Fixpoint qualified_wallets (wallets : list string) (results : list json)
    (minimum_wallet_capital : Qc) : result (list string) :=
  match wallets, results with
  | w :: wallets, b :: results =>
      balance ← py_num b;
      rest ← qualified_wallets wallets results minimum_wallet_capital;
      Ok (if decide (minimum_wallet_capital < balance)%Qc then w :: rest else rest)
  | _, _ => Ok []
  end.

Definition meets_thresholds (minimum_win_rate : Qc) (mimimum_average_holding_period : Z)
    (minimum_total_pnl : Qc) (r : wallet_metrics) : bool :=
  bool_decide (minimum_win_rate ≤ win_rate r)%Qc
  && bool_decide (Qc_of_Z mimimum_average_holding_period ≤ average_holding_time_seconds r)%Qc
  && bool_decide (minimum_total_pnl ≤ total_pnl_usd r)%Qc.

(** [sorted(..., key=lambda x: x["total_pnl_usd"], reverse=True)]: a stable
    sort, so rows with equal keys keep their order. *)
Fixpoint insert_desc (x : wallet_metrics) (l : list wallet_metrics) : list wallet_metrics :=
  match l with
  | [] => [x]
  | y :: l' =>
      if decide (total_pnl_usd x < total_pnl_usd y)%Qc
      then y :: insert_desc x l'
      else x :: l
  end.

Definition sorted_desc (l : list wallet_metrics) : list wallet_metrics :=
  foldr insert_desc [] l.

Definition sorted_results (final_results : list wallet_metrics)
    (minimum_win_rate : Qc) (mimimum_average_holding_period : Z)
    (minimum_total_pnl : Qc) : list wallet_metrics :=
  sorted_desc
    (filter (fun r => meets_thresholds minimum_win_rate mimimum_average_holding_period
                        minimum_total_pnl r = true) final_results).

(** ** [timeframe_to_seconds] *)

Definition is_space (c : ascii) : bool :=
  bool_decide (c ∈ [" "; "009"; "010"; "011"; "012"; "013";
                    "028"; "029"; "030"; "031"]%char).

Definition digit_of (c : ascii) : option Z :=
  let n := Z.of_nat (nat_of_ascii c) in
  if decide (48 ≤ n ≤ 57) then Some (n - 48) else None.

Fixpoint lstrip (s : string) : string :=
  match s with
  | String c s' => if is_space c then lstrip s' else s
  | EmptyString => s
  end.

Fixpoint rstrip (s : string) : string :=
  match s with
  | String c s' =>
      match rstrip s' with
      | EmptyString => if is_space c then EmptyString else String c EmptyString
      | r => String c r
      end
  | EmptyString => s
  end.

(** [s.strip()] *)
Definition strip (s : string) : string := rstrip (lstrip s).

(** Digits with single underscores between them; [seen] tells whether the
    previous character was a digit. *)
Fixpoint int_digits (acc : Z) (seen : bool) (s : string) : option Z :=
  match s with
  | EmptyString => if seen then Some acc else None
  | String c s' =>
      match digit_of c with
      | Some d => int_digits (10 * acc + d) true s'
      | None =>
          if bool_decide (c = "_"%char) && seen then
            match s' with
            | EmptyString => None
            | _ => int_digits acc false s'
            end
          else None
      end
  end.

(** [int(s)] on a string, base ten, for ASCII input: surrounding white
    space, an optional sign, then the digits. *)
Definition split_sign (s : string) : Z * string :=
  match s with
  | String "-" s' => (-1, s')
  | String "+" s' => (1, s')
  | _ => (1, s)
  end.

Definition py_int (s : string) : result Z :=
  let '(sign, body) := split_sign (strip s) in
  match int_digits 0 false body with
  | Some n => Ok (sign * n)
  | None => Raise ValueError
  end.

Definition time_units : list (string * Z) :=
  [("s", 1); ("mi", 60); ("h", 3600); ("d", 86400); ("w", 604800);
   ("m", 2592000); ("y", 31536000)].

(** [s[:-1]] and [s[-1]] *)
Definition but_last (s : string) : string :=
  String.substring 0 (String.length s - 1) s.

Definition last_char (s : string) : result string :=
  match String.get (String.length s - 1) s with
  | Some c => Ok (String c "")
  | None => Raise IndexError
  end.

Definition timeframe_to_seconds (w : world) (timeframe : string) : result Z :=
  if decide (timeframe = "all") then Ok (now w)
  else
    n ← py_int (but_last timeframe);
    unit ← last_char timeframe;
    Ok (n * default 0 (assoc unit time_units)).

(** ** Specification-side definitions *)

(** What the disposal branch writes once the loop is over. *)
Definition settle (r : result (Qc * Qc)) (l : ledger) : ledger :=
  match r with
  | Raise _ => l
  | Ok (pnl_usd, holding_time) => record_sale pnl_usd holding_time l
  end.

(** FIFO matching as the specification words it: walk the queue from its
    head; each lot met while some quantity is still needed is matched for
    [min(need, quantity)]; a lot larger than the need stays at the head with
    what is left of it.  The result is the list of matches (lot, matched
    quantity), oldest first, and the queue that remains. *)
Fixpoint fifo_match (need : Qc) (q : list lot) : list (lot * Qc) * list lot :=
  match q with
  | [] => ([], [])
  | l :: q' =>
      if decide (0 < need)%Qc then
        if decide (need < buy_amount l)%Qc then
          ([(l, need)], Lot (buy_amount l - need)%Qc (buy_price_usd l) (buy_time l) :: q')
        else
          let '(ms, rest) := fifo_match (need - buy_amount l)%Qc q' in
          ((l, buy_amount l) :: ms, rest)
      else ([], q)
  end.

(** Sum over the matches of [(sell_price - unit_cost) * matched]. *)
Definition matched_pnl (sell_price : Qc) (ms : list (lot * Qc)) : Qc :=
  foldr (fun m acc => ((sell_price - buy_price_usd m.1) * m.2 + acc)%Qc) 0%Qc ms.

(** Sum over the matches of [(disposal time - acquisition time) *
    (matched / original disposal quantity)]. *)
Definition matched_holding_time (timestamp : Z) (original : Qc) (ms : list (lot * Qc)) : Qc :=
  foldr (fun m acc => (Qc_of_Z (timestamp - buy_time m.1) * (m.2 / original) + acc)%Qc) 0%Qc ms.

(** Sum over the matches of [unit_cost * matched]: the cost basis consumed. *)
Definition matched_cost (ms : list (lot * Qc)) : Qc :=
  foldr (fun m acc => (buy_price_usd m.1 * m.2 + acc)%Qc) 0%Qc ms.

Definition held (q : list lot) : Qc :=
  foldr (fun l acc => (buy_amount l + acc)%Qc) 0%Qc q.

(** What a disposal may do to a queue: drop lots from the head, and leave
    the next lot reduced by a matched quantity smaller than the lot, with
    its unit cost and acquisition time. *)
Inductive consumed : list lot -> list lot -> Prop :=
  | consumed_none q : consumed q q
  | consumed_pop l q q' : consumed q q' -> consumed (l :: q) q'
  | consumed_part l m q :
      (0 < m)%Qc -> (m < buy_amount l)%Qc ->
      consumed (l :: q) (Lot (buy_amount l - m)%Qc (buy_price_usd l) (buy_time l) :: q).

(** The ways one event may change the queue of a token. *)
Inductive queue_step (tx : transaction) (q q' : list lot) : Prop :=
  | queue_kept : q' = q -> queue_step tx q q'
  | queue_pushed usd :
      (0 < token_amount tx)%Qc ->
      q' = (q ++ [Lot (token_amount tx) usd (timestamp tx)])%list ->
      queue_step tx q q'
  | queue_consumed :
      (token_amount tx < 0)%Qc -> consumed q q' -> queue_step tx q q'.

Definition lot_ok (l : lot) : Prop :=
  (0 < buy_amount l)%Qc /\ (0 < buy_price_usd l)%Qc.

Definition oldest_first (q : list lot) : Prop :=
  StronglySorted (fun a b => buy_time a <= buy_time b) q.

(** A queue whose lots were all acquired no later than [t]. *)
Definition queue_ok (t : Z) (q : list lot) : Prop :=
  Forall lot_ok q /\ oldest_first q /\ Forall (fun l => buy_time l <= t) q.

Definition inventory_ok (t : Z) (h : inventory) : Prop :=
  NoDup h.*1 /\ Forall (fun e => queue_ok t e.2) h.

Definition chronological (txs : list transaction) : Prop :=
  StronglySorted (fun a b => timestamp a <= timestamp b) txs.

(** ** A small concrete run

    One token ["T"], bought twice and sold once; the peer answers the three
    historical price requests with 1, 2 and 3 and refuses anything else. *)

Definition price_body (q : Qc) : json :=
  JObj [("success", JBool true); ("data", JObj [("value", JNum q)])].

Definition demo_server (history : list string) (url : string) : result response :=
  if decide (url = price_url "T" "100") then Ok (Response 200 (Ok (price_body (Qc_of_Z 1))))
  else if decide (url = price_url "T" "200") then Ok (Response 200 (Ok (price_body (Qc_of_Z 2))))
  else if decide (url = price_url "T" "300") then Ok (Response 200 (Ok (price_body (Qc_of_Z 3))))
  else Ok (Response 404 (Ok JNull)).

Definition demo_world : world :=
  {| token_prices := ∅; requests := []; server := demo_server; now := 1000 |}.

Definition swap (tok : string) (t : Z) (amount : Z) : transaction :=
  {| name := tok; token := tok; timestamp := t; token_amount := Qc_of_Z amount;
     solana_amount := 0%Qc |}.

Definition demo_a1 : transaction := swap "T" 100 10.
Definition demo_a2 : transaction := swap "T" 200 10.
Definition demo_d : transaction := swap "T" 300 (-15).

(** A ledger that already holds two lots of ["T"], aged 100s and 200s at
    the time of [demo_d]. *)
Definition demo_aged : ledger :=
  with_holdings
    [("T", [Lot (Qc_of_Z 10) (Qc_of_Z 1) 200; Lot (Qc_of_Z 10) (Qc_of_Z 2) 100])]
    empty_ledger.

(** An acquisition and a disposal at times for which the peer has no price. *)
Definition demo_unpriced_a : transaction := swap "T" 998 10.
Definition demo_unpriced_d : transaction := swap "T" 999 (-10).


(** ** The price cache, as seen from outside *)

(** [token_prices[token][str(timestamp)]], if both keys are present. *)
Definition cached (w : world) (timestamp : Z) (tok : string) : option json :=
  token_prices w !! tok ≫= fun entry => entry !! pretty timestamp.

(** What [fetch] would hand to [token_price] for this key, were it called
    now. *)
Definition remote_answer (w : world) (timestamp : Z) (tok : string) : result (option json) :=
  (fetch w (price_url tok (pretty timestamp))).2.

(** The number of requests issued so far for the price of this key. *)
Definition remote_calls (w : world) (timestamp : Z) (tok : string) : nat :=
  length (filter (fun url => url = price_url tok (pretty timestamp)) (requests w)).

(** Failure memoisation as the specification states it, for one key: a
    failed lookup returns zero and caches zero, and the next lookup of the
    key returns the cached zero without another request. *)
Definition failure_memoized (w : world) (timestamp : Z) (tok : string) : Prop :=
  let '(w1, r1) := token_price w timestamp tok in
  let '(w2, r2) := token_price w1 timestamp tok in
  r1 = Ok (JNum 0%Qc)
  /\ cached w1 timestamp tok = Some (JNum 0%Qc)
  /\ r2 = Ok (JNum 0%Qc)
  /\ requests w2 = requests w1.

Definition demo_txs : list transaction := [demo_a1; demo_a2; demo_d].

(** Two rows and two balances for the screener. *)
Definition demo_row (who : string) (pnl : Z) : wallet_metrics :=
  {| wallet := who; total_pnl_usd := Qc_of_Z pnl; row_realized_pnl := Qc_of_Z pnl;
     unrealized_pnl := 0%Qc; win_rate := Qc_of_Z 100;
     average_holding_time_seconds := Qc_of_Z 60 |}.

Definition demo_rows : list wallet_metrics :=
  [demo_row "a" 10; demo_row "b" 30; demo_row "c" (-5); demo_row "d" 20].

(** No white space anywhere in the string. *)
Fixpoint no_space (s : string) : Prop :=
  match s with
  | EmptyString => True
  | String c s' => is_space c = false /\ no_space s'
  end.

(** Only decimal digits. *)
Fixpoint all_digits (s : string) : Prop :=
  match s with
  | EmptyString => True
  | String c s' => is_Some (digit_of c) /\ all_digits s'
  end.

(** The units that are one character long, with their durations. *)
Definition short_units : list (string * Z) :=
  [("s", 1); ("h", 3600); ("d", 86400); ("w", 604800); ("m", 2592000); ("y", 31536000)].

(** ** [wallet_balance] *)

(** The expression inside the [try] of [wallet_balance]. *)
Definition balance_of_data (data : option json) : result json :=
  match data with
  | None => Ok (JNum 0%Qc)
  | Some data =>
      if truthy data then
        ok ← dict_get data "success" JNull;
        if truthy ok then
          d ← dict_item data "data";
          dict_get d "totalUsd" (JNum 0%Qc)
        else Ok (JNum 0%Qc)
      else Ok (JNum 0%Qc)
  end.

Definition balance_url (wallet : string) : string :=
  (BASE_URL ++ "/v1/wallet/token_list?wallet=" ++ wallet)%string.

Definition wallet_balance (w : world) (wallet : string) : world * result json :=
  let '(w, data) := fetch w (balance_url wallet) in
  match data with
  | Raise e => (w, Raise e)
  | Ok data =>
      (w, Ok match balance_of_data data with
             | Ok balance => balance
             | Raise _ => JNum 0%Qc
             end)
  end.

(** A peer that cannot be reached, and a peer that reports success with a
    [null] value for every request. *)
Definition demo_offline : world :=
  {| token_prices := ∅; requests := []; server := fun _ _ => Raise ClientError;
     now := 1000 |}.

Definition demo_null_world : world :=
  {| token_prices := ∅; requests := [];
     server := fun _ _ =>
       Ok (Response 200
             (Ok (JObj [("success", JBool true); ("data", JObj [("value", JNull)])])));
     now := 1000 |}.

(** A peer that answers 200 with a body that is not JSON: [response.json()]
    raises. *)
Definition demo_garbled : world :=
  {| token_prices := ∅; requests := [];
     server := fun _ _ => Ok (Response 200 (Raise ValueError)); now := 1000 |}.

(** A peer that answers 200 with a JSON body that is no dictionary. *)
Definition demo_misshapen : world :=
  {| token_prices := ∅; requests := [];
     server := fun _ _ => Ok (Response 200 (Ok (JStr "busy"))); now := 1000 |}.

(** ** Bookkeeping of the ledger *)

Definition sum_list (l : list Qc) : Qc := foldr Qcplus 0%Qc l.

(** The cost basis of a queue: the sum of [unit cost * quantity]. *)
Definition cost_basis (q : list lot) : Qc :=
  foldr (fun lot acc => (buy_price_usd lot * buy_amount lot + acc)%Qc) 0%Qc q.

(** How the accumulators of [calculate] hang together. *)
Definition ledger_consistent (l : ledger) : Prop :=
  realized_pnl l = sum_list (pnl_records l)
  /\ total_profit_usd l = realized_pnl l
  /\ wins l = length (filter (fun pnl => (0 < pnl)%Qc) (pnl_records l))
  /\ (length (pnl_records l) <= total_sales l)%nat.

(** ** [wallet_history]: paging and normalising *)

(** [10 ** decimal_places] for an [int] exponent, as an exact rational. *)
Definition pow10 (decimal_places : Z) : Qc :=
  if decide (0 <= decimal_places) then Qc_of_Z (10 ^ decimal_places)
  else (/ Qc_of_Z (10 ^ (- decimal_places)))%Qc.

(** What [wallet_history] takes from outside the file: [dateutil]'s ISO
    parser composed with [int(dt.timestamp())] (it is applied to whatever
    [tx["blockTime"]] holds), Python's [str] on a JSON value that is not a
    string, the float [10 ** d] for an exponent that is not an integer, the
    part of [time.time()] below the second, and the module-level input
    [timeframe]. *)
Record history_env : Type := {
  isoparse : json -> result Z;
  str_of : json -> string;
  frac_pow10 : Qc -> Qc;
  time_fraction : Qc;
  timeframe : string
}.

(** [time.time()] *)
Definition time_time (env : history_env) (w : world) : Qc :=
  (Qc_of_Z (now w) + time_fraction env)%Qc.

(** [f"{v}"] *)
Definition py_str (env : history_env) (v : json) : string :=
  match v with
  | JStr s => s
  | _ => str_of env v
  end.

(** [v[i]] for an index that is a natural number. *)
Definition list_item (v : json) (i : nat) : result json :=
  match v with
  | JArr l => match l !! i with
              | Some x => Ok x
              | None => Raise IndexError
              end
  | JStr s => match String.get i s with
              | Some c => Ok (JStr (String c ""))
              | None => Raise IndexError
              end
  | JObj _ => Raise KeyError
  | _ => Raise TypeError
  end.

(** [len(v)]; of a string, its length in bytes (a record whose
    [balanceChange] is a string is skipped whatever that length is). *)
Definition py_len (v : json) : result nat :=
  match v with
  | JArr l => Ok (length l)
  | JObj l => Ok (length l)
  | JStr s => Ok (String.length s)
  | _ => Raise TypeError
  end.

(** [10 ** d] for a JSON value. *)
Definition json_pow10 (env : history_env) (d : json) : result Qc :=
  e ← py_num d;
  Ok (if decide (Qden (this e) = 1%positive) then pow10 (Qnum (this e))
      else frac_pow10 env e).

(** [convert_to_decimal] applied to two JSON values, with the quotient
    taken exactly: the amounts of the events are idealised, and what is
    proved of the scan below does not depend on their values. *)
Definition convert_json (env : history_env) (number decimal_places : json) : result Qc :=
  p ← json_pow10 env decimal_places;
  n ← py_num number;
  py_div n p.

(** The dictionaries appended to [txs]; [name] and [token] are whatever the
    record holds. *)
Module Event.
Record t : Type := make {
  name : json;
  token : json;
  timestamp : Z;
  token_amount : Qc;
  solana_amount : Qc
}.
End Event.

(** The body of the [try] for one record: [Ok None] is the [break] on a
    record older than the window, [Ok (Some txs)] the list after the
    record. *)
Definition scan_record (env : history_env) (w : world) (tx : json)
    (txs : list Event.t) : result (option (list Event.t)) :=
  block_time ← dict_item tx "blockTime";
  timestamp ← isoparse env block_time;
  seconds ← timeframe_to_seconds w (timeframe env);
  if decide (Qc_of_Z timestamp < time_time env w - Qc_of_Z seconds)%Qc then Ok None
  else
    action ← dict_item tx "mainAction";
    if match action with JStr a => bool_decide (a = "unknown") | _ => false end then
      legs ← dict_item tx "balanceChange";
      n ← py_len legs;
      if decide (n = 2%nat) then
        leg1 ← list_item legs 1;
        name ← dict_item leg1 "name";
        address ← dict_item leg1 "address";
        amount1 ← dict_item leg1 "amount";
        decimals1 ← dict_item leg1 "decimals";
        token_amount ← convert_json env amount1 decimals1;
        leg0 ← list_item legs 0;
        amount0 ← dict_item leg0 "amount";
        decimals0 ← dict_item leg0 "decimals";
        solana_amount ← convert_json env amount0 decimals0;
        Ok (Some (txs ++ [Event.make name address timestamp token_amount solana_amount]))
      else Ok (Some txs)
    else Ok (Some txs).

(** [for tx in transactions], with its [try]/[except: pass]; the boolean is
    [eol]. *)
Fixpoint scan_page (env : history_env) (w : world) (transactions : list json)
    (txs : list Event.t) : list Event.t * bool :=
  match transactions with
  | [] => (txs, false)
  | tx :: transactions =>
      match scan_record env w tx txs with
      | Ok None => (txs, true)
      | Ok (Some txs) => scan_page env w transactions txs
      | Raise _ => scan_page env w transactions txs
      end
  end.

(** What the statements around the [for] loop make of [transactions]: the
    records the loop visits, or the exception one of [transactions[-1]],
    the iteration and [len] raises. *)
Definition page_records (transactions : json) : result (list json) :=
  match transactions with
  | JArr l => Ok l
  | JStr s => if decide (s = "") then Ok [] else Raise TypeError
  | JObj [] => Ok []
  | JObj _ => Raise KeyError
  | _ => Raise TypeError
  end.

(** [transactions[-1]["txHash"] if transactions else None] *)
Definition last_hash (l : list json) : result json :=
  match last l with
  | None => Ok JNull
  | Some tx => dict_item tx "txHash"
  end.

Definition page_url (env : history_env) (wallet : string) (lastTx : json) : string :=
  (BASE_URL ++ "/v1/wallet/tx_list?wallet=" ++ wallet ++ "&limit=" ++ "1000"
   ++ (if truthy lastTx then "&before=" ++ py_str env lastTx else ""))%string.

(** The [while not eol] loop, one unit of [fuel] per page; [None] means the
    fuel ran out.  It yields [txs] as collected (newest first), which
    [wallet_history] hands to [calculate] reversed. *)
Fixpoint history_loop (fuel : nat) (env : history_env) (w : world) (wallet : string)
    (txs : list Event.t) (lastTx : json) : option (world * result (list Event.t)) :=
  match fuel with
  | O => None
  | S fuel =>
      let '(w, data) := fetch w (page_url env wallet lastTx) in
      match data with
      | Raise e => Some (w, Raise e)
      | Ok None => Some (w, Ok txs)
      | Ok (Some data) =>
          if truthy data then
            match dict_get data "success" JNull with
            | Raise e => Some (w, Raise e)
            | Ok ok =>
                if truthy ok then
                  match
                    d ← dict_item data "data";
                    transactions ← dict_get d "solana" (JArr []);
                    l ← page_records transactions;
                    lastTx ← last_hash l;
                    Ok (l, lastTx)
                  with
                  | Raise e => Some (w, Raise e)
                  | Ok (l, lastTx) =>
                      let '(txs, eol) := scan_page env w l txs in
                      if eol || bool_decide (length l < 1000)%nat then Some (w, Ok txs)
                      else history_loop fuel env w wallet txs lastTx
                  end
                else Some (w, Ok txs)
            end
          else Some (w, Ok txs)
      end
  end.

(** The event comes from the record: the record is marked ["unknown"],
    has exactly two legs, and the event carries the parsed block time and
    the name, address and converted amount of the second leg, with the
    converted amount of the first leg beside it. *)
Definition normalised_from (env : history_env) (tx : json) (ev : Event.t) : Prop :=
  exists leg0 leg1 amount1 decimals1 amount0 decimals0,
    dict_item tx "mainAction" = Ok (JStr "unknown")
    /\ dict_item tx "balanceChange" = Ok (JArr [leg0; leg1])
    /\ dict_item tx "blockTime" ≫= isoparse env = Ok (Event.timestamp ev)
    /\ dict_item leg1 "name" = Ok (Event.name ev)
    /\ dict_item leg1 "address" = Ok (Event.token ev)
    /\ dict_item leg1 "amount" = Ok amount1
    /\ dict_item leg1 "decimals" = Ok decimals1
    /\ convert_json env amount1 decimals1 = Ok (Event.token_amount ev)
    /\ dict_item leg0 "amount" = Ok amount0
    /\ dict_item leg0 "decimals" = Ok decimals0
    /\ convert_json env amount0 decimals0 = Ok (Event.solana_amount ev).

(** The event is not older than the lookback window. *)
Definition in_window (env : history_env) (w : world) (ev : Event.t) : Prop :=
  exists seconds,
    timeframe_to_seconds w (timeframe env) = Ok seconds
    /\ ~ (Qc_of_Z (Event.timestamp ev) < time_time env w - Qc_of_Z seconds)%Qc.

(** The record is older than the lookback window. *)
Definition too_old (env : history_env) (w : world) (tx : json) : Prop :=
  exists timestamp seconds,
    dict_item tx "blockTime" ≫= isoparse env = Ok timestamp
    /\ timeframe_to_seconds w (timeframe env) = Ok seconds
    /\ (Qc_of_Z timestamp < time_time env w - Qc_of_Z seconds)%Qc.

(** A stand-in for the outside of [wallet_history]: block times written as
    decimal epoch seconds, a window of one hour. *)
Definition demo_env : history_env :=
  {| isoparse := fun v => match v with JStr s => py_int s | _ => Raise TypeError end;
     str_of := fun _ => "";
     frac_pow10 := fun _ => 1%Qc;
     time_fraction := 0%Qc;
     timeframe := "1h" |}.

Definition demo_leg (name address : string) (amount decimals : Z) : json :=
  JObj [("name", JStr name); ("address", JStr address);
        ("amount", JNum (Qc_of_Z amount)); ("decimals", JNum (Qc_of_Z decimals))].

Definition demo_record (block_time action : string) : json :=
  JObj [("txHash", JStr block_time); ("blockTime", JStr block_time);
        ("mainAction", JStr action);
        ("balanceChange",
         JArr [demo_leg "SOL" "So1" (-1000) 9; demo_leg "Tok" "T" 1500 2])].

(** A peer that answers every request with one page of one record. *)
Definition demo_page_world : world :=
  {| token_prices := ∅; requests := [];
     server := fun _ _ =>
       Ok (Response 200
             (Ok (JObj [("success", JBool true);
                        ("data", JObj [("solana", JArr [demo_record "900" "unknown"])])])));
     now := 1000 |}.

(** ** The disposal loop on binary64

    Lines 224-235 once more, with the quantities, the prices and the two
    sums as IEEE 754 doubles (the kernel's primitive floats: [-], [*], [/]
    and the comparisons round and compare as Python's [float] does).  The
    sell price is a float here, so the [TypeError] of a price that is not a
    number does not arise (an [int] price below 2^53 acts as the float of
    the same value); timestamps stay integers.  Neither the queue the loop
    leaves nor its ending depends on the prices. *)














(** ** Arithmetic on [Qc] *)

(** Linear goals over [Qc], through [Q]. *)
Ltac qc_lra :=
  unfold Qcle, Qclt, Qcminus, Qcplus, Qcopp in *; cbn [this Q2Qc] in *;
  rewrite ?Qred_correct in *; lra.

(** Closed comparisons and closed equalities. *)
Ltac qc_cmp :=
  first [ by vm_compute
        | let H := fresh in intros H; vm_compute in H; discriminate ].

Ltac qc_eq := apply Qc_is_canon; vm_compute; reflexivity.

Lemma Qcabs_neg_pos (x : Qc) : (x < 0)%Qc -> (0 < Qcabs x)%Qc.
Proof.
  intros H. rewrite Qcabs_neg by (apply Qclt_le_weak; exact H).
  apply Qclt_minus_iff in H. rewrite Qcplus_0_l in H. exact H.
Qed.

Lemma Qc_pos_ne0 (x : Qc) : (0 < x)%Qc -> x <> 0%Qc.
Proof. intros H ->. exact (Qclt_not_eq _ _ H eq_refl). Qed.

Lemma py_div_ok (a b : Qc) : b <> 0%Qc -> py_div a b = Ok (a / b)%Qc.
Proof. intros H. unfold py_div. destruct (decide (b = 0%Qc)); [contradiction | reflexivity]. Qed.

(** ** The disposal loop *)

Section SellLoop.
Context (price : json) (ts : Z) (orig : Qc).

(** More fuel than the queue is long always suffices: an iteration either
    drops a lot for good or puts it back with nothing left to sell. *)
Lemma sell_loop_total fuel need pnl ht q :
  (length q < fuel)%nat ->
  is_Some (sell_loop fuel price ts orig need pnl ht q).
Proof.
  revert need pnl ht q. induction fuel as [|fuel IH]; intros need pnl ht q Hlen; [lia|].
  simpl. destruct (decide (0 < need)%Qc) as [Hneed|Hneed]; [|eauto].
  destruct q as [|[a c t] q]; [eauto|]. simpl in Hlen.
  destruct (py_num price) as [p|e]; simpl; [|eauto].
  destruct (py_div (py_min need a) orig) as [share|e]; simpl; [|eauto].
  destruct (decide (py_min need a < a)%Qc) as [Hlt|Hge].
  - assert (py_min need a = need) as Hmin.
    { unfold py_min in *. destruct (decide (a < need)%Qc); [|reflexivity].
      exfalso. exact (Qclt_not_eq _ _ Hlt eq_refl). }
    rewrite Hmin. destruct fuel as [|fuel]; [lia|]. simpl.
    destruct (decide (0 < need - need)%Qc) as [Hpos|]; [|eauto].
    exfalso. replace (need - need)%Qc with 0%Qc in Hpos by ring.
    exact (Qclt_not_eq _ _ Hpos eq_refl).
  - apply IH. lia.
Qed.

(** Whatever the price and however the loop ends, the queue it leaves is
    the old one consumed from its head. *)
Lemma sell_loop_consumed fuel need pnl ht q q' r :
  sell_loop fuel price ts orig need pnl ht q = Some (q', r) ->
  consumed q q'.
Proof.
  revert need pnl ht q. induction fuel as [|fuel IH]; intros need pnl ht q; [discriminate|].
  simpl. destruct (decide (0 < need)%Qc) as [Hneed|Hneed].
  2:{ intros [= <- _]. constructor. }
  destruct q as [|[a c t] q]; [intros [= <- _]; constructor|].
  destruct (py_num price) as [p|e]; simpl.
  2:{ intros [= <- _]. apply consumed_pop, consumed_none. }
  destruct (py_div (py_min need a) orig) as [share|e]; simpl.
  2:{ intros [= <- _]. apply consumed_pop, consumed_none. }
  destruct (decide (py_min need a < a)%Qc) as [Hlt|Hge].
  - assert (py_min need a = need) as Hmin.
    { unfold py_min in *. destruct (decide (a < need)%Qc); [|reflexivity].
      exfalso. exact (Qclt_not_eq _ _ Hlt eq_refl). }
    rewrite Hmin in *. destruct fuel as [|fuel]; [discriminate|]. simpl.
    destruct (decide (0 < need - need)%Qc) as [Hpos|_].
    { exfalso. replace (need - need)%Qc with 0%Qc in Hpos by ring.
      exact (Qclt_not_eq _ _ Hpos eq_refl). }
    intros [= <- _]. apply (consumed_part (Lot a c t)); assumption.
  - intros H. apply consumed_pop. exact (IH _ _ _ _ H).
Qed.

Section NumericPrice.
Context (p : Qc) (Hp : py_num price = Ok p) (Horig : orig <> 0%Qc).

(** With a numeric price the loop computes the FIFO matching of the
    specification: its queue, and its two sums on top of the
    accumulators. *)
Lemma sell_loop_fifo fuel need pnl ht q :
  (length q < fuel)%nat ->
  sell_loop fuel price ts orig need pnl ht q =
    Some ((fifo_match need q).2,
          Ok ((pnl + matched_pnl p (fifo_match need q).1)%Qc,
              (ht + matched_holding_time ts orig (fifo_match need q).1)%Qc)).
Proof.
  revert need pnl ht q. induction fuel as [|fuel IH]; intros need pnl ht q Hlen; [lia|].
  simpl. destruct q as [|[a c t] q].
  - simpl. rewrite !Qcplus_0_r. destruct (decide (0 < need)%Qc); reflexivity.
  - simpl in Hlen. simpl fifo_match.
    destruct (decide (0 < need)%Qc) as [Hneed|Hneed];
      [|simpl; rewrite !Qcplus_0_r; reflexivity].
    rewrite Hp. simpl. rewrite (py_div_ok _ _ Horig). simpl.
    unfold py_min. destruct (decide (need < a)%Qc) as [Hlt|Hge].
    + destruct (decide (a < need)%Qc) as [Hgt|_];
        [exfalso; exact (Qclt_not_eq _ _ (Qclt_trans _ _ _ Hlt Hgt) eq_refl)|].
      destruct (decide (need < a)%Qc); [|contradiction].
      destruct fuel as [|fuel]; [lia|]. simpl.
      destruct (decide (0 < need - need)%Qc) as [Hpos|_].
      { exfalso. replace (need - need)%Qc with 0%Qc in Hpos by ring.
        exact (Qclt_not_eq _ _ Hpos eq_refl). }
      simpl. rewrite !Qcplus_0_r. reflexivity.
    + assert ((if decide (a < need)%Qc then a else need) = a) as ->.
      { destruct (decide (a < need)%Qc) as [|Hn]; [reflexivity|].
        apply Qcle_antisym; apply Qcnot_lt_le; assumption. }
      destruct (decide (a < a)%Qc) as [Haa|_];
        [exfalso; exact (Qclt_not_eq _ _ Haa eq_refl)|].
      rewrite IH by lia.
      destruct (fifo_match (need - a) q) as [ms rest]. simpl.
      f_equal. f_equal. f_equal. f_equal; ring.
Qed.
End NumericPrice.
End SellLoop.

Lemma consumed_queue_ok t q q' : consumed q q' -> queue_ok t q -> queue_ok t q'.
Proof.
  induction 1 as [q|l q q' _ IH|l m q Hm Hlt]; intros (Hok & Hs & Hb); [done| |].
  - apply IH. inversion Hok; inversion Hs; inversion Hb; subst. done.
  - inversion Hok as [|? ? [Ha Hc] Hok']; inversion Hs as [|? ? Hs' Hhd];
      inversion Hb; subst.
    apply Qclt_minus_iff in Hlt. split; [|split].
    + constructor; [split; assumption | assumption].
    + constructor; assumption.
    + constructor; assumption.
Qed.

Lemma fifo_match_consumed need q : consumed q (fifo_match need q).2.
Proof.
  revert need. induction q as [|l q IH]; intros need; simpl; [constructor|].
  destruct (decide (0 < need)%Qc); [|constructor].
  destruct (decide (need < buy_amount l)%Qc); simpl.
  - by apply consumed_part.
  - specialize (IH (need - buy_amount l)%Qc).
    destruct (fifo_match (need - buy_amount l) q). simpl in *. by apply consumed_pop.
Qed.

(** ** The inventory dictionary *)

Lemma assoc_None {A} k (l : list (string * A)) : assoc k l = None <-> k ∉ l.*1.
Proof.
  induction l as [|[k' v] l IH]; simpl.
  - split; [intros _; apply not_elem_of_nil | done].
  - destruct (decide (k = k')) as [->|Hne].
    + split; [done | intros H; exfalso; apply H; left].
    + rewrite IH, not_elem_of_cons. tauto.
Qed.

Lemma assoc_app_l {A} k (l l' : list (string * A)) v :
  assoc k l = Some v -> assoc k (l ++ l') = Some v.
Proof.
  induction l as [|[k' x] l IH]; simpl; [done|].
  destruct (decide (k = k')); auto.
Qed.

Lemma assoc_app_r {A} k (l l' : list (string * A)) :
  assoc k l = None -> assoc k (l ++ l') = assoc k l'.
Proof.
  induction l as [|[k' x] l IH]; simpl; [done|].
  destruct (decide (k = k')); [done | auto].
Qed.

Lemma queue_touch h tok tok' : queue (touch h tok) tok' = queue h tok'.
Proof.
  unfold queue, touch. destruct (assoc tok h) eqn:E; [done|].
  destruct (assoc tok' h) eqn:E'.
  - by rewrite (assoc_app_l _ _ _ _ E').
  - rewrite (assoc_app_r _ _ _ E'). simpl. by destruct (decide (tok' = tok)).
Qed.

Lemma touch_is_Some h tok : is_Some (assoc tok (touch h tok)).
Proof.
  unfold touch. destruct (assoc tok h) eqn:E; [by rewrite E|].
  rewrite (assoc_app_r _ _ _ E). simpl. destruct (decide (tok = tok)); [eauto | done].
Qed.

Lemma queue_set_same h tok q : is_Some (assoc tok h) -> queue (set_queue h tok q) tok = q.
Proof.
  unfold queue. induction h as [|[k v] h IH]; simpl; [by intros [? ?]|].
  destruct (decide (tok = k)) as [->|Hne]; simpl.
  - by destruct (decide (k = k)).
  - destruct (decide (tok = k)); [done | exact IH].
Qed.

Lemma queue_set_other h tok tok' q : tok <> tok' -> queue (set_queue h tok q) tok' = queue h tok'.
Proof.
  unfold queue. intros Hne. induction h as [|[k v] h IH]; simpl; [done|].
  destruct (decide (tok = k)) as [->|Hk]; simpl.
  - by destruct (decide (tok' = k)); [subst|].
  - destruct (decide (tok' = k)); [done | exact IH].
Qed.

Lemma set_queue_keys h tok q : (set_queue h tok q).*1 = h.*1.
Proof.
  induction h as [|[k v] h IH]; [done|]. simpl set_queue.
  destruct (decide (tok = k)); csimpl; [done | by rewrite IH].
Qed.

Lemma set_queue_Forall (P : string * list lot -> Prop) h tok q :
  (forall k, P (k, q)) -> Forall P h -> Forall P (set_queue h tok q).
Proof.
  intros Hq. induction 1 as [|[k v] h Hk Hh IH]; simpl; [constructor|].
  destruct (decide (tok = k)); constructor; auto.
Qed.

Lemma touch_inventory_ok t h tok : inventory_ok t h -> inventory_ok t (touch h tok).
Proof.
  intros [Hnd Hall]. unfold touch. destruct (assoc tok h) eqn:E; [done|].
  apply assoc_None in E. split.
  - rewrite fmap_app. apply NoDup_app. repeat split; [done| |apply NoDup_singleton].
    intros x Hx Hx'. apply list_elem_of_singleton in Hx'. simpl in Hx'. by subst.
  - apply Forall_app. split; [done|]. constructor; [|constructor].
    repeat split; constructor.
Qed.

Lemma set_queue_inventory_ok t h tok q :
  queue_ok t q -> inventory_ok t h -> inventory_ok t (set_queue h tok q).
Proof.
  intros Hq [Hnd Hall]. split; [by rewrite set_queue_keys|].
  by apply set_queue_Forall.
Qed.

Lemma inventory_ok_queue t h tok : inventory_ok t h -> queue_ok t (queue h tok).
Proof.
  intros [_ Hall]. unfold queue. induction Hall as [|[k v] h Hk Hh IH]; simpl.
  - repeat split; constructor.
  - destruct (decide (tok = k)); [exact Hk | exact IH].
Qed.

Lemma queue_ok_mono t t' q : t <= t' -> queue_ok t q -> queue_ok t' q.
Proof.
  intros Hle (Hok & Hs & Hb). repeat split; [done..|].
  eapply Forall_impl; [exact Hb|]. simpl. intros. lia.
Qed.

Lemma inventory_ok_mono t t' h : t <= t' -> inventory_ok t h -> inventory_ok t' h.
Proof.
  intros Hle [Hnd Hall]. split; [done|].
  eapply Forall_impl; [exact Hall|]. intros e. by apply queue_ok_mono.
Qed.

Lemma queue_ok_push t q amount usd :
  (0 < amount)%Qc -> (0 < usd)%Qc -> queue_ok t q -> queue_ok t (q ++ [Lot amount usd t]).
Proof.
  intros Ha Hu (Hok & Hs & Hb). repeat split.
  - apply Forall_app. split; [done|]. by repeat constructor.
  - unfold oldest_first in *. induction q as [|l q IH]; simpl.
    + repeat constructor.
    + inversion Hs; inversion Hok; inversion Hb; subst. constructor; [by apply IH|].
      apply Forall_app. split; [done|]. by repeat constructor.
  - apply Forall_app. split; [done|]. repeat constructor. simpl. lia.
Qed.

(** ** One event *)

Lemma sell_lots_total price ts orig q : is_Some (sell_lots price ts orig q).
Proof. apply sell_loop_total. lia. Qed.

(** The three things an event can do to the accumulators. *)
Lemma process_cases w l tx w' l' :
  process (w, l) tx = (w', l') ->
  l' = l
  \/ (exists usd, (0 < token_amount tx)%Qc /\ (0 < usd)%Qc /\
        l' = with_holdings
               (set_queue (touch (holdings l) (token tx)) (token tx)
                  (queue (holdings l) (token tx)
                     ++ [Lot (token_amount tx) usd (timestamp tx)])) l)
  \/ (exists price q' r, (token_amount tx < 0)%Qc /\
        sell_lots price (timestamp tx) (Qcabs (token_amount tx))
          (queue (holdings l) (token tx)) = Some (q', r) /\
        l' = settle r (with_holdings
                         (set_queue (touch (holdings l) (token tx)) (token tx) q')
                         (count_sale l))).
Proof.
  unfold process.
  destruct (decide (0 < token_amount tx)%Qc) as [Hpos|Hnpos].
  - destruct (token_price w (timestamp tx) (token tx)) as [w1 [v|e]]; simpl.
    2:{ intros [= _ <-]. by left. }
    destruct (py_num v) as [usd|e]; simpl.
    2:{ intros [= _ <-]. by left. }
    destruct (decide (0 < usd)%Qc) as [Husd|_].
    + intros [= _ <-]. right. left. exists usd. rewrite queue_touch. done.
    + intros [= _ <-]. by left.
  - destruct (decide (token_amount tx < 0)%Qc) as [Hneg|_].
    2:{ intros [= _ <-]. by left. }
    destruct (token_price w (timestamp tx) (token tx)) as [w1 [price|e]]; simpl.
    2:{ intros [= _ <-]. by left. }
    rewrite queue_touch.
    destruct (sell_lots_total price (timestamp tx) (Qcabs (token_amount tx))
                (queue (holdings l) (token tx))) as [[q' r] Hq].
    rewrite Hq. intros H. right. right. exists price, q', r.
    split; [done|]. split; [done|].
    destruct r as [[pnl ht]|e]; simpl; by injection H as _ <-.
Qed.

Lemma holdings_settle r l : holdings (settle r l) = holdings l.
Proof. by destruct r as [[? ?]|?]. Qed.

Lemma process_queue_step w l tx w' l' tok :
  process (w, l) tx = (w', l') ->
  queue_step tx (queue (holdings l) tok) (queue (holdings l') tok).
Proof.
  intros H. apply process_cases in H as [->|[(usd & Hpos & Husd & ->)|(price & q' & r & Hneg & Hq & ->)]].
  - by apply queue_kept.
  - simpl. destruct (decide (token tx = tok)) as [<-|Hne].
    + rewrite queue_set_same by apply touch_is_Some. by eapply queue_pushed.
    + rewrite queue_set_other, queue_touch by done. by apply queue_kept.
  - rewrite holdings_settle. simpl. destruct (decide (token tx = tok)) as [<-|Hne].
    + rewrite queue_set_same by apply touch_is_Some.
      apply queue_consumed; [done|]. by eapply sell_loop_consumed.
    + rewrite queue_set_other, queue_touch by done. by apply queue_kept.
Qed.

Lemma process_inventory_ok t w l tx w' l' :
  inventory_ok t (holdings l) -> t <= timestamp tx ->
  process (w, l) tx = (w', l') ->
  inventory_ok (timestamp tx) (holdings l').
Proof.
  intros Hinv Hle H. apply (inventory_ok_mono _ _ _ Hle) in Hinv.
  apply process_cases in H as [->|[(usd & Hpos & Husd & ->)|(price & q' & r & Hneg & Hq & ->)]].
  - done.
  - simpl. apply set_queue_inventory_ok; [|by apply touch_inventory_ok].
    apply queue_ok_push; [done..|]. by apply inventory_ok_queue.
  - rewrite holdings_settle. simpl.
    apply set_queue_inventory_ok; [|by apply touch_inventory_ok].
    eapply consumed_queue_ok; [by eapply sell_loop_consumed|].
    by apply inventory_ok_queue.
Qed.

Lemma run_snoc s txs tx : run s (txs ++ [tx]) = process (run s txs) tx.
Proof. unfold run. by rewrite fold_left_app. Qed.

Lemma empty_inventory_ok t : inventory_ok t [].
Proof. split; constructor. Qed.

Lemma chronological_snoc txs tx :
  chronological (txs ++ [tx]) ->
  chronological txs /\ Forall (fun a => timestamp a <= timestamp tx) txs.
Proof.
  unfold chronological. induction txs as [|a txs IH]; simpl; intros Hc.
  - split; constructor.
  - inversion Hc as [|? ? Hs Hall]; subst. destruct (IH Hs) as [IH1 IH2].
    apply Forall_app in Hall as [Hall1 Hall2]. apply Forall_cons in Hall2 as [Ha _].
    split; constructor; done.
Qed.

Lemma chronological_take n txs : chronological txs -> chronological (take n txs).
Proof.
  unfold chronological. intros Hc. revert n.
  induction Hc as [|a txs Hs IH Ha]; intros [|n]; simpl; try constructor; [done|].
  apply Forall_take. exact Ha.
Qed.

(** After a chronological run every queue is well formed with respect to
    the time of the last event. *)
Lemma run_inventory_ok w txs :
  chronological txs ->
  forall t, Forall (fun tx => timestamp tx <= t) txs ->
  inventory_ok t (holdings (run (w, empty_ledger) txs).2).
Proof.
  induction txs as [|tx txs IH] using rev_ind; intros Hc t Hb.
  - apply empty_inventory_ok.
  - rewrite run_snoc. apply Forall_app in Hb as [Hb Htx].
    apply Forall_cons in Htx as [Htx _].
    destruct (chronological_snoc _ _ Hc) as [Hc' Hlast].
    specialize (IH Hc' (timestamp tx) Hlast).
    destruct (run (w, empty_ledger) txs) as [w1 l1] eqn:E. simpl in IH.
    destruct (process (w1, l1) tx) as [w2 l2] eqn:E2. simpl.
    eapply inventory_ok_mono; [exact Htx|].
    eapply process_inventory_ok; [exact IH|lia|exact E2].
Qed.

Lemma process_acquire w l tx w' v usd :
  (0 < token_amount tx)%Qc ->
  token_price w (timestamp tx) (token tx) = (w', Ok v) ->
  py_num v = Ok usd -> (0 < usd)%Qc ->
  process (w, l) tx =
    (w', with_holdings
           (set_queue (touch (holdings l) (token tx)) (token tx)
              (queue (holdings l) (token tx) ++ [Lot (token_amount tx) usd (timestamp tx)])) l).
Proof.
  intros Hpos Hp Hv Husd. unfold process.
  destruct (decide (0 < token_amount tx)%Qc); [|done].
  rewrite Hp. simpl. rewrite Hv.
  destruct (decide (0 < usd)%Qc); [|done]. by rewrite queue_touch.
Qed.

Lemma process_acquire_dropped w l tx w' v usd :
  (0 < token_amount tx)%Qc ->
  token_price w (timestamp tx) (token tx) = (w', Ok v) ->
  py_num v = Ok usd -> ~ (0 < usd)%Qc ->
  process (w, l) tx = (w', l).
Proof.
  intros Hpos Hp Hv Husd. unfold process.
  destruct (decide (0 < token_amount tx)%Qc); [|done].
  rewrite Hp. simpl. rewrite Hv. by destruct (decide (0 < usd)%Qc).
Qed.

Lemma process_dispose w l tx w' v p :
  (token_amount tx < 0)%Qc ->
  token_price w (timestamp tx) (token tx) = (w', Ok v) ->
  py_num v = Ok p ->
  let m := fifo_match (Qcabs (token_amount tx)) (queue (holdings l) (token tx)) in
  process (w, l) tx =
    (w', record_sale (matched_pnl p m.1)
           (matched_holding_time (timestamp tx) (Qcabs (token_amount tx)) m.1)
           (with_holdings (set_queue (touch (holdings l) (token tx)) (token tx) m.2)
              (count_sale l))).
Proof.
  intros Hneg Hp Hv m. unfold process.
  destruct (decide (0 < token_amount tx)%Qc) as [Hpos|_].
  { exfalso. exact (Qclt_not_eq _ _ (Qclt_trans _ _ _ Hpos Hneg) eq_refl). }
  destruct (decide (token_amount tx < 0)%Qc); [|done].
  rewrite Hp. simpl. rewrite queue_touch. unfold sell_lots.
  rewrite (sell_loop_fifo _ _ _ p Hv (Qc_pos_ne0 _ (Qcabs_neg_pos _ Hneg))) by lia.
  fold m. by rewrite !Qcplus_0_l.
Qed.

Lemma fifo_match_whole need l q :
  (0 < need)%Qc -> ~ (need < buy_amount l)%Qc ->
  fifo_match need (l :: q) =
    ((l, buy_amount l) :: (fifo_match (need - buy_amount l) q).1,
     (fifo_match (need - buy_amount l) q).2).
Proof.
  intros H1 H2. simpl. destruct (decide (0 < need)%Qc); [|done].
  destruct (decide (need < buy_amount l)%Qc); [done|].
  by destruct (fifo_match (need - buy_amount l) q).
Qed.

Lemma fifo_match_part need l q :
  (0 < need)%Qc -> (need < buy_amount l)%Qc ->
  fifo_match need (l :: q) =
    ([(l, need)], Lot (buy_amount l - need) (buy_price_usd l) (buy_time l) :: q).
Proof.
  intros H1 H2. simpl. destruct (decide (0 < need)%Qc); [|done].
  by destruct (decide (need < buy_amount l)%Qc).
Qed.

Lemma acquire_queue w l tx w' v usd :
  (0 < token_amount tx)%Qc ->
  token_price w (timestamp tx) (token tx) = (w', Ok v) ->
  py_num v = Ok usd -> (0 < usd)%Qc ->
  queue (holdings (process (w, l) tx).2) (token tx) =
    queue (holdings l) (token tx) ++ [Lot (token_amount tx) usd (timestamp tx)].
Proof.
  intros Hpos Hp Hv Husd.
  rewrite (process_acquire _ _ _ _ _ _ Hpos Hp Hv Husd). simpl.
  apply queue_set_same, touch_is_Some.
Qed.

Lemma acquire_books w l tx w' v usd :
  (0 < token_amount tx)%Qc ->
  token_price w (timestamp tx) (token tx) = (w', Ok v) ->
  py_num v = Ok usd -> (0 < usd)%Qc ->
  let l' := (process (w, l) tx).2 in
  pnl_records l' = pnl_records l /\ realized_pnl l' = realized_pnl l
  /\ total_sales l' = total_sales l /\ wins l' = wins l
  /\ total_holding_time l' = total_holding_time l.
Proof.
  intros Hpos Hp Hv Husd l'. subst l'.
  by rewrite (process_acquire _ _ _ _ _ _ Hpos Hp Hv Husd).
Qed.

Lemma dispose_books w l tx w' v p :
  (token_amount tx < 0)%Qc ->
  token_price w (timestamp tx) (token tx) = (w', Ok v) ->
  py_num v = Ok p ->
  let m := fifo_match (Qcabs (token_amount tx)) (queue (holdings l) (token tx)) in
  let l' := (process (w, l) tx).2 in
  queue (holdings l') (token tx) = m.2
  /\ pnl_records l' = pnl_records l ++ [matched_pnl p m.1]
  /\ realized_pnl l' = (realized_pnl l + matched_pnl p m.1)%Qc
  /\ total_holding_time l' =
       (total_holding_time l
        + matched_holding_time (timestamp tx) (Qcabs (token_amount tx)) m.1)%Qc
  /\ total_sales l' = S (total_sales l)
  /\ wins l' = if decide (0 < matched_pnl p m.1)%Qc then S (wins l) else wins l.
Proof.
  intros Hneg Hp Hv m l'. subst l'.
  rewrite (process_dispose _ _ _ _ _ _ Hneg Hp Hv). simpl. fold m.
  split; [|done]. apply queue_set_same, touch_is_Some.
Qed.

(** ** C1: FIFO lot matching *)

(** C1.  Acquisitions push a lot to the tail of the token's queue, and a
    disposal consumes the queue from its head, oldest lot first, booking
    [(sell price - unit cost) * matched] for every match.  Concretely, from
    an empty queue, A1 (10 at cost 1) then A2 (10 at cost 2) then a disposal
    of 15 sold at 3 books a realized PnL of 25 for the disposal and leaves
    exactly one lot: 5 at cost 2, acquired at A2's time. *)
Theorem fifo_lot_matching :
  (forall w l tx w' v usd,
      (0 < token_amount tx)%Qc ->
      token_price w (timestamp tx) (token tx) = (w', Ok v) ->
      py_num v = Ok usd -> (0 < usd)%Qc ->
      queue (holdings (process (w, l) tx).2) (token tx) =
        queue (holdings l) (token tx) ++ [Lot (token_amount tx) usd (timestamp tx)])
  /\ (forall w l tx w' v p,
      (token_amount tx < 0)%Qc ->
      token_price w (timestamp tx) (token tx) = (w', Ok v) ->
      py_num v = Ok p ->
      let m := fifo_match (Qcabs (token_amount tx)) (queue (holdings l) (token tx)) in
      let l' := (process (w, l) tx).2 in
      queue (holdings l') (token tx) = m.2
      /\ pnl_records l' = pnl_records l ++ [matched_pnl p m.1]
      /\ realized_pnl l' = (realized_pnl l + matched_pnl p m.1)%Qc)
  /\ (forall w l a1 a2 d,
      token a1 = token d -> token a2 = token d ->
      token_amount a1 = Qc_of_Z 10 -> token_amount a2 = Qc_of_Z 10 ->
      token_amount d = Qc_of_Z (-15) ->
      queue (holdings l) (token d) = [] ->
      let s1 := process (w, l) a1 in
      let s2 := process s1 a2 in
      let s3 := process s2 d in
      (token_price w (timestamp a1) (token a1)).2 = Ok (JNum (Qc_of_Z 1)) ->
      (token_price s1.1 (timestamp a2) (token a2)).2 = Ok (JNum (Qc_of_Z 2)) ->
      (token_price s2.1 (timestamp d) (token d)).2 = Ok (JNum (Qc_of_Z 3)) ->
      queue (holdings s2.2) (token d) =
        [Lot (Qc_of_Z 10) (Qc_of_Z 1) (timestamp a1);
         Lot (Qc_of_Z 10) (Qc_of_Z 2) (timestamp a2)]
      /\ queue (holdings s3.2) (token d) = [Lot (Qc_of_Z 5) (Qc_of_Z 2) (timestamp a2)]
      /\ pnl_records s3.2 = pnl_records l ++ [Qc_of_Z 25]
      /\ realized_pnl s3.2 = (realized_pnl l + Qc_of_Z 25)%Qc).
Proof.
  split; [exact acquire_queue|]. split.
  { intros w l tx w' v p Hneg Hp Hv.
    destruct (dispose_books w l tx w' v p Hneg Hp Hv) as (? & ? & ? & _). done. }
  intros w l a1 a2 d T1 T2 A1 A2 D Hq s1 s2 s3 P1 P2 P3.
  assert (0 < token_amount a1)%Qc as H1 by (rewrite A1; qc_cmp).
  assert (0 < token_amount a2)%Qc as H2 by (rewrite A2; qc_cmp).
  assert (token_amount d < 0)%Qc as H3 by (rewrite D; qc_cmp).
  assert (0 < Qc_of_Z 1)%Qc as U1 by qc_cmp.
  assert (0 < Qc_of_Z 2)%Qc as U2 by qc_cmp.
  subst s1 s2 s3.
  destruct (process (w, l) a1) as [w1 l1] eqn:Es1.
  destruct (process (w1, l1) a2) as [w2 l2] eqn:Es2.
  destruct (process (w2, l2) d) as [w3 l3] eqn:Es3. cbn [fst snd] in *.
  destruct (token_price w (timestamp a1) (token a1)) as [w1' r1] eqn:E1.
  destruct (token_price w1 (timestamp a2) (token a2)) as [w2' r2] eqn:E2.
  destruct (token_price w2 (timestamp d) (token d)) as [w3' r3] eqn:E3.
  cbn [fst snd] in *. subst r1 r2 r3.
  pose proof (acquire_queue w l a1 _ _ _ H1 E1 eq_refl U1) as Q1.
  pose proof (acquire_books w l a1 _ _ _ H1 E1 eq_refl U1) as (R1 & Z1 & _).
  rewrite Es1 in Q1, R1, Z1. simpl in Q1, R1, Z1. rewrite T1, Hq, A1 in Q1.
  pose proof (acquire_queue w1 l1 a2 _ _ _ H2 E2 eq_refl U2) as Q2.
  pose proof (acquire_books w1 l1 a2 _ _ _ H2 E2 eq_refl U2) as (R2 & Z2 & _).
  rewrite Es2 in Q2, R2, Z2. simpl in Q2, R2, Z2. rewrite T2, Q1, A2 in Q2.
  simpl in Q2.
  pose proof (dispose_books w2 l2 d _ _ _ H3 E3 eq_refl) as (Q3 & R3 & Z3 & _).
  rewrite Es3 in Q3, R3, Z3. simpl in Q3, R3, Z3.
  rewrite Q2, D in Q3, R3, Z3.
  rewrite fifo_match_whole in Q3, R3, Z3 by (simpl; qc_cmp).
  rewrite fifo_match_part in Q3, R3, Z3 by (simpl; qc_cmp).
  simpl in Q3, R3, Z3.
  split; [done|]. rewrite Q3, R3, Z3, R2, R1, Z2, Z1.
  split; [|split].
  - f_equal. f_equal. qc_eq.
  - f_equal. f_equal. qc_eq.
  - f_equal; qc_eq.
Qed.

Lemma fifo_lot_matching_witness :
  let s1 := process (demo_world, empty_ledger) demo_a1 in
  let s2 := process s1 demo_a2 in
  let s3 := process s2 demo_d in
  queue (holdings s1.2) "T" = [Lot (Qc_of_Z 10) (Qc_of_Z 1) 100]
  /\ queue (holdings s2.2) "T" =
       [Lot (Qc_of_Z 10) (Qc_of_Z 1) 100; Lot (Qc_of_Z 10) (Qc_of_Z 2) 200]
  /\ queue (holdings s3.2) "T" = [Lot (Qc_of_Z 5) (Qc_of_Z 2) 200]
  /\ pnl_records s3.2 = [Qc_of_Z 25]
  /\ realized_pnl s3.2 = (0 + Qc_of_Z 25)%Qc.
Proof.
  intros s1 s2 s3.
  destruct fifo_lot_matching as (Hpush & _ & Hrun).
  split.
  - apply (Hpush demo_world empty_ledger demo_a1
             (token_price demo_world 100 "T").1 (JNum (Qc_of_Z 1)) (Qc_of_Z 1));
      vm_compute; reflexivity.
  - apply (Hrun demo_world empty_ledger demo_a1 demo_a2 demo_d);
      vm_compute; reflexivity.
Defined.

(** ** C2: holding-time weighting *)

(** C2.  A disposal adds to the running holding time the sum, over the lots
    it consumes, of [(disposal time - acquisition time) * (matched /
    original disposal quantity)]; the denominator is the whole
    [|token_amount|] of the disposal for every lot.  For a disposal of 15
    that meets a lot of 10 aged 100s and then takes 5 from a lot aged 200s
    the contribution is [(10/15)*100 + (5/15)*200]. *)
Theorem holding_time_weighting :
  (forall w l tx w' v p,
      (token_amount tx < 0)%Qc ->
      token_price w (timestamp tx) (token tx) = (w', Ok v) ->
      py_num v = Ok p ->
      let m := fifo_match (Qcabs (token_amount tx)) (queue (holdings l) (token tx)) in
      total_holding_time (process (w, l) tx).2 =
        (total_holding_time l
         + matched_holding_time (timestamp tx) (Qcabs (token_amount tx)) m.1)%Qc)
  /\ (forall w l tx w' v p c1 c2 b,
      token_amount tx = Qc_of_Z (-15) ->
      token_price w (timestamp tx) (token tx) = (w', Ok v) ->
      py_num v = Ok p ->
      (Qc_of_Z 5 ≤ b)%Qc ->
      queue (holdings l) (token tx) =
        [Lot (Qc_of_Z 10) c1 (timestamp tx - 100); Lot b c2 (timestamp tx - 200)] ->
      total_holding_time (process (w, l) tx).2 =
        (total_holding_time l
         + (Qc_of_Z 10 / Qc_of_Z 15 * Qc_of_Z 100
            + Qc_of_Z 5 / Qc_of_Z 15 * Qc_of_Z 200))%Qc).
Proof.
  split.
  { intros w l tx w' v p Hneg Hp Hv.
    destruct (dispose_books w l tx w' v p Hneg Hp Hv) as (_ & _ & _ & H & _). exact H. }
  intros w l tx w' v p c1 c2 b D Hp Hv Hb Hq.
  assert (token_amount tx < 0)%Qc as Hneg by (rewrite D; qc_cmp).
  destruct (dispose_books w l tx w' v p Hneg Hp Hv) as (_ & _ & _ & H & _).
  cbv zeta in H. rewrite H. f_equal. rewrite Hq, D.
  rewrite fifo_match_whole by (simpl; qc_cmp). cbn [buy_amount].
  replace (Qcabs (Qc_of_Z (-15)) - Qc_of_Z 10)%Qc with (Qc_of_Z 5) by qc_eq.
  assert (matched_holding_time (timestamp tx) (Qcabs (Qc_of_Z (-15)))
            (fifo_match (Qc_of_Z 5) [Lot b c2 (timestamp tx - 200)]).1
          = (Qc_of_Z 200 * (Qc_of_Z 5 / Qcabs (Qc_of_Z (-15))) + 0)%Qc) as Hsnd.
  { destruct (decide (Qc_of_Z 5 < b)%Qc) as [Hlt|Hge].
    - rewrite fifo_match_part by (try done; qc_cmp). simpl.
      by replace (timestamp tx - (timestamp tx - 200)) with 200 by lia.
    - assert (b = Qc_of_Z 5) as -> by (apply Qcle_antisym; [by apply Qcnot_lt_le|done]).
      rewrite fifo_match_whole by (simpl; qc_cmp). simpl.
      by replace (timestamp tx - (timestamp tx - 200)) with 200 by lia. }
  unfold matched_holding_time in *. cbn [foldr fst snd buy_time]. rewrite Hsnd.
  replace (timestamp tx - (timestamp tx - 100)) with 100 by lia.
  qc_eq.
Qed.

Lemma holding_time_weighting_witness :
  total_holding_time (process (demo_world, demo_aged) demo_d).2 =
    (0 + (Qc_of_Z 10 / Qc_of_Z 15 * Qc_of_Z 100
          + Qc_of_Z 5 / Qc_of_Z 15 * Qc_of_Z 200))%Qc.
Proof.
  destruct holding_time_weighting as [_ H].
  apply (H demo_world demo_aged demo_d (token_price demo_world 300 "T").1
           (JNum (Qc_of_Z 3)) (Qc_of_Z 3) (Qc_of_Z 1) (Qc_of_Z 2) (Qc_of_Z 10));
    vm_compute; first [reflexivity | discriminate].
Defined.

(** ** C3: acquisitions without a price *)

Lemma dispose_empty w l tx w' v :
  (token_amount tx < 0)%Qc ->
  token_price w (timestamp tx) (token tx) = (w', Ok v) ->
  queue (holdings l) (token tx) = [] ->
  process (w, l) tx =
    (w', record_sale 0%Qc 0%Qc
           (with_holdings (set_queue (touch (holdings l) (token tx)) (token tx) [])
              (count_sale l))).
Proof.
  intros Hneg Hp Hq. unfold process.
  destruct (decide (0 < token_amount tx)%Qc) as [Hpos|_].
  { exfalso. exact (Qclt_not_eq _ _ (Qclt_trans _ _ _ Hpos Hneg) eq_refl). }
  destruct (decide (token_amount tx < 0)%Qc); [|done].
  rewrite Hp. cbn [count_sale holdings]. rewrite queue_touch, Hq.
  unfold sell_lots. simpl.
  by destruct (decide (0 < Qcabs (token_amount tx))%Qc).
Qed.

(** C3.  An acquisition whose price lookup returns 0 adds no lot (it leaves
    every accumulator as it was); a later disposal of that token, when the
    token has no other lot, matches nothing and books a realized PnL of
    exactly 0 for the disposal. *)
Theorem unknown_price_acquisition_dropped (w : world) (l : ledger) (a d : transaction) v x :
  (0 < token_amount a)%Qc ->
  (token_price w (timestamp a) (token a)).2 = Ok v -> py_num v = Ok 0%Qc ->
  let s1 := process (w, l) a in
  s1.2 = l
  /\ ((token_amount d < 0)%Qc -> token d = token a ->
      queue (holdings l) (token a) = [] ->
      (token_price s1.1 (timestamp d) (token d)).2 = Ok x ->
      let s2 := process s1 d in
      queue (holdings s2.2) (token a) = []
      /\ pnl_records s2.2 = pnl_records l ++ [0%Qc]
      /\ realized_pnl s2.2 = realized_pnl l
      /\ total_holding_time s2.2 = total_holding_time l
      /\ wins s2.2 = wins l).
Proof.
  intros Hpos Hp Hv s1.
  destruct (token_price w (timestamp a) (token a)) as [w1 r] eqn:E. simpl in Hp. subst r.
  assert (process (w, l) a = (w1, l)) as Hs1.
  { apply (process_acquire_dropped _ _ _ _ _ _ Hpos E Hv).
    intros H. exact (Qclt_not_eq _ _ H eq_refl). }
  subst s1. rewrite Hs1. split; [done|]. cbn [fst snd].
  intros Hneg Htok Hq Hsome.
  destruct (token_price w1 (timestamp d) (token d)) as [w2 r] eqn:E2.
  cbn [snd] in Hsome. subst r.
  rewrite <- Htok in *.
  rewrite (dispose_empty _ _ _ _ _ Hneg E2 Hq).
  cbn [fst snd record_sale with_holdings count_sale holdings pnl_records
       realized_pnl total_holding_time wins].
  rewrite queue_set_same by apply touch_is_Some.
  rewrite !Qcplus_0_r. repeat split; done.
Qed.

Lemma unknown_price_acquisition_dropped_witness :
  let s1 := process (demo_world, empty_ledger) demo_unpriced_a in
  let s2 := process s1 demo_unpriced_d in
  s1.2 = empty_ledger
  /\ queue (holdings s2.2) "T" = []
  /\ pnl_records s2.2 = [0%Qc]
  /\ realized_pnl s2.2 = 0%Qc.
Proof.
  intros s1 s2.
  assert (0 < token_amount demo_unpriced_a)%Qc as Ha by (vm_compute; reflexivity).
  assert ((token_price demo_world (timestamp demo_unpriced_a) (token demo_unpriced_a)).2
          = Ok (JNum 0%Qc)) as Hp by (vm_compute; reflexivity).
  destruct (unknown_price_acquisition_dropped demo_world empty_ledger
              demo_unpriced_a demo_unpriced_d (JNum 0%Qc) (JNum 0%Qc) Ha Hp eq_refl)
    as [H1 H2].
  split; [exact H1|].
  assert (token_amount demo_unpriced_d < 0)%Qc as Hd by (vm_compute; reflexivity).
  destruct (H2 Hd eq_refl eq_refl) as (Q & R & Z & _).
  - vm_compute. reflexivity.
  - exact (conj Q (conj R Z)).
Defined.

(** ** C4: disposing of more than is held *)




(** ** Doubles: what the loop needs of their subtraction

    From the specification of the primitive operations ([SpecFloat], with
    round to nearest even): the difference of two doubles [x < y] is above
    zero. *)

Section Rounding.
Variables prec emax : Z.
Hypothesis Hprec : 0 < prec.














End Rounding.






Section SellLoop64.
Context (price : float) (ts : Z) (orig : float).
Context (Horig : (orig =? 0)%float = false).

End SellLoop64.




(** ** C5: the price cache *)

Lemma token_price_hit w ts tok v :
  cached w ts tok = Some v -> token_price w ts tok = (w, Ok v).
Proof.
  unfold cached, token_price. destruct (token_prices w !! tok) as [entry|] eqn:E; [|done].
  simpl. rewrite E. simpl. by intros ->.
Qed.

(** The world in which [token_price] runs after a miss: the token has its
    (possibly fresh, empty) entry and the request has been logged. *)
Lemma token_price_miss w ts tok :
  cached w ts tok = None ->
  exists w0,
    requests w0 = requests w ++ [price_url tok (pretty ts)]
    /\ server w0 = server w /\ now w0 = now w
    /\ cached w0 ts tok = None
    /\ is_Some (token_prices w0 !! tok)
    /\ token_price w ts tok =
         match remote_answer w ts tok with
         | Raise e => (w0, Raise e)
         | Ok data =>
             match price_of_data data with
             | Ok (Some price) =>
                 (set_token_prices
                    (<[tok := <[pretty ts := price]> (default ∅ (token_prices w0 !! tok))]>
                       (token_prices w0)) w0,
                  Ok price)
             | _ => (w0, Ok (JNum 0%Qc))
             end
         end.
Proof.
  unfold cached, token_price, remote_answer, fetch.
  destruct (token_prices w !! tok) as [entry|] eqn:E; simpl.
  - intros Hmiss. rewrite E. simpl. rewrite Hmiss.
    exists (log_request (price_url tok (pretty ts)) w). simpl. rewrite E. simpl.
    split_and!; by eauto.
  - intros _. rewrite lookup_insert_eq. simpl. rewrite lookup_empty.
    exists (log_request (price_url tok (pretty ts))
              (set_token_prices (<[tok := ∅]> (token_prices w)) w)).
    simpl. rewrite lookup_insert_eq. simpl. rewrite lookup_empty.
    split_and!; by eauto.
Qed.

Lemma token_price_miss_requests w ts tok :
  cached w ts tok = None ->
  requests (token_price w ts tok).1 = requests w ++ [price_url tok (pretty ts)].
Proof.
  intros Hmiss. destruct (token_price_miss w ts tok Hmiss) as (w0 & Hr & _ & _ & _ & _ & ->).
  destruct (remote_answer w ts tok) as [data|e]; [|done].
  by destruct (price_of_data data) as [[price|]|e].
Qed.

(** C5, as the code has it, for the lookups in which [fetch] returns.  A
    cached value, zero included, is returned without a request.  On a miss
    one request is issued.  When the [try] takes its success branch (status
    200, a truthy body with a truthy ["success"] and a dictionary under
    ["data"]), the value is cached and returned, and the next lookup of the
    key returns it without a request.  For anything else [fetch] returns (a
    status other than 200, a falsy body or ["success"], a decoded body of
    another shape) the lookup returns zero and caches nothing for the key,
    so the next lookup of the key issues another request.  A [fetch] that
    raises is not covered here. *)
Theorem token_price_caches_success_only (w : world) (ts : Z) (tok : string) :
  (forall v, cached w ts tok = Some v -> token_price w ts tok = (w, Ok v))
  /\ (cached w ts tok = None ->
      forall data, remote_answer w ts tok = Ok data ->
      let url := price_url tok (pretty ts) in
      let w1 := (token_price w ts tok).1 in
      let r1 := (token_price w ts tok).2 in
      requests w1 = requests w ++ [url]
      /\ match price_of_data data with
         | Ok (Some price) =>
             r1 = Ok price
             /\ cached w1 ts tok = Some price
             /\ token_price w1 ts tok = (w1, Ok price)
         | _ =>
             r1 = Ok (JNum 0%Qc)
             /\ cached w1 ts tok = None
             /\ requests (token_price w1 ts tok).1 = requests w ++ [url; url]
         end).
Proof.
  split; [intros v; apply token_price_hit|].
  intros Hmiss data Hdata url w1 r1.
  split; [by apply token_price_miss_requests|].
  subst w1 r1.
  destruct (token_price_miss w ts tok Hmiss) as (w0 & Hr & _ & _ & Hc0 & _ & ->).
  rewrite Hdata.
  assert (requests (token_price w0 ts tok).1 = requests w ++ [url; url]) as Hagain.
  { rewrite (token_price_miss_requests _ _ _ Hc0), Hr, <- app_assoc. done. }
  destruct (price_of_data data) as [[price|]|e]; cbn [fst snd]; [|done..].
  assert (cached (set_token_prices
                    (<[tok := <[pretty ts := price]> (default ∅ (token_prices w0 !! tok))]>
                       (token_prices w0)) w0) ts tok = Some price) as Hc1.
  { unfold cached. simpl. rewrite lookup_insert_eq. simpl. by rewrite lookup_insert_eq. }
  split; [done|]. split; [done|]. by apply token_price_hit.
Qed.

(** The key ("T", 998) of the concrete world: the peer answers 404, the
    lookup returns zero, nothing is cached and the second lookup asks the
    peer again. *)
Lemma failure_not_memoized :
  cached demo_world 998 "T" = None
  /\ remote_answer demo_world 998 "T" = Ok None
  /\ (token_price demo_world 998 "T").2 = Ok (JNum 0%Qc)
  /\ cached (token_price demo_world 998 "T").1 998 "T" = None
  /\ remote_calls (token_price (token_price demo_world 998 "T").1 998 "T").1 998 "T" = 2%nat
  /\ ~ failure_memoized demo_world 998 "T".
Proof.
  split_and!; try (vm_compute; reflexivity).
  intros H. vm_compute in H. destruct H as (_ & H & _). discriminate H.
Qed.

Lemma token_price_caches_success_only_witness :
  (token_price demo_world 998 "T").2 = Ok (JNum 0%Qc)
  /\ cached (token_price demo_world 998 "T").1 998 "T" = None
  /\ (token_price demo_world 100 "T").2 = Ok (JNum (Qc_of_Z 1))
  /\ cached (token_price demo_world 100 "T").1 100 "T" = Some (JNum (Qc_of_Z 1))
  /\ (token_price demo_misshapen 100 "T").2 = Ok (JNum 0%Qc)
  /\ cached (token_price demo_misshapen 100 "T").1 100 "T" = None.
Proof.
  destruct (token_price_caches_success_only demo_world 998 "T") as [_ H1].
  destruct (token_price_caches_success_only demo_world 100 "T") as [_ H2].
  destruct (token_price_caches_success_only demo_misshapen 100 "T") as [_ H3].
  assert (cached demo_world 998 "T" = None) as M1 by (vm_compute; reflexivity).
  assert (cached demo_world 100 "T" = None) as M2 by (vm_compute; reflexivity).
  assert (cached demo_misshapen 100 "T" = None) as M3 by (vm_compute; reflexivity).
  assert (remote_answer demo_world 998 "T" = Ok None) as A1 by (vm_compute; reflexivity).
  assert (remote_answer demo_world 100 "T" = Ok (Some (price_body (Qc_of_Z 1)))) as A2
    by (vm_compute; reflexivity).
  assert (remote_answer demo_misshapen 100 "T" = Ok (Some (JStr "busy"))) as A3
    by (vm_compute; reflexivity).
  destruct (H1 M1 _ A1) as (_ & R1 & C1 & _).
  destruct (H2 M2 _ A2) as (_ & R2 & C2 & _).
  destruct (H3 M3 _ A3) as (_ & R3 & C3 & _).
  exact (conj R1 (conj C1 (conj R2 (conj C2 (conj R3 C3))))).
Defined.

(** ** C6: the returned metrics *)

Lemma run_cons s tx txs : run s (tx :: txs) = run (process s tx) txs.
Proof. done. Qed.

Lemma run_no_disposal s txs :
  Forall (fun tx => ~ (token_amount tx < 0)%Qc) txs ->
  total_sales (run s txs).2 = total_sales s.2.
Proof.
  intros H. revert s. induction H as [|tx txs Htx _ IH]; intros s; [done|].
  rewrite run_cons, IH. destruct s as [w l].
  destruct (process (w, l) tx) as [w' l'] eqn:E. cbn [snd].
  apply process_cases in E as [->|[(usd & _ & _ & ->)|(? & ? & ? & Hneg & _)]];
    [done..|contradiction].
Qed.

Lemma final_metrics_ok who l unreal :
  exists m,
    final_metrics who l unreal = Ok m
    /\ wallet m = who
    /\ row_realized_pnl m = realized_pnl l
    /\ unrealized_pnl m = unreal
    /\ total_pnl_usd m = (realized_pnl l + unreal)%Qc
    /\ (total_sales l = 0%nat ->
        win_rate m = 0%Qc /\ average_holding_time_seconds m = 0%Qc)
    /\ (total_sales l <> 0%nat ->
        win_rate m =
          (Qc_of_Z (Z.of_nat (wins l)) / Qc_of_Z (Z.of_nat (total_sales l))
           * Qc_of_Z 100)%Qc
        /\ average_holding_time_seconds m =
            (total_holding_time l / Qc_of_Z (Z.of_nat (total_sales l)))%Qc).
Proof.
  unfold final_metrics. destruct (decide (total_sales l = 0%nat)) as [Hz|Hnz]; simpl.
  - eexists. split; [done|]. simpl. split_and!; try done.
  - assert (Qc_of_Z (Z.of_nat (total_sales l)) <> 0%Qc) as Hne.
    { intros H. apply (f_equal this) in H. simpl in H. injection H as H. lia. }
    rewrite !(py_div_ok _ _ Hne). simpl.
    eexists. split; [done|]. simpl. split_and!; try done.
Qed.

(** C6.  Whenever the closing price lookups let [calculate] reach its
    [return], it returns a row (the return expression raises nothing, in
    particular no division by zero) whose total is realized plus unrealized
    PnL; with no sale counted the win rate and the average holding time are
    0, otherwise they are [wins / total_sales * 100] and
    [total_holding_time / total_sales]; and a sequence without disposals
    counts no sale. *)
Theorem zero_disposal_metrics (w : world) (txs : list transaction) (who : string)
    (unreal : Qc) :
  let s := run (w, empty_ledger) txs in
  (mark_to_market s.1 (holdings s.2) 0%Qc).2 = Ok unreal ->
  exists m,
    (calculate w txs who).2 = Ok m
    /\ total_pnl_usd m = (row_realized_pnl m + unrealized_pnl m)%Qc
    /\ row_realized_pnl m = realized_pnl s.2
    /\ unrealized_pnl m = unreal
    /\ (total_sales s.2 = 0%nat ->
        win_rate m = 0%Qc /\ average_holding_time_seconds m = 0%Qc)
    /\ (total_sales s.2 <> 0%nat ->
        win_rate m =
          (Qc_of_Z (Z.of_nat (wins s.2)) / Qc_of_Z (Z.of_nat (total_sales s.2))
           * Qc_of_Z 100)%Qc
        /\ average_holding_time_seconds m =
            (total_holding_time s.2 / Qc_of_Z (Z.of_nat (total_sales s.2)))%Qc)
    /\ (Forall (fun tx => ~ (token_amount tx < 0)%Qc) txs ->
        total_sales s.2 = 0%nat
        /\ win_rate m = 0%Qc /\ average_holding_time_seconds m = 0%Qc).
Proof.
  intros s Hu. unfold calculate. fold s.
  destruct s as [w1 l1] eqn:Es. cbn [fst snd] in *.
  destruct (mark_to_market w1 (holdings l1) 0%Qc) as [w2 u]. cbn [snd] in *. subst u.
  destruct (final_metrics_ok who l1 unreal) as (m & Hm & _ & Hr & Hun & Ht & Hz & Hnz).
  exists m. simpl. split; [exact Hm|]. rewrite Hr, Hun.
  split_and!; try done.
  intros Hnone. pose proof (run_no_disposal (w, empty_ledger) txs Hnone) as H0.
  fold s in H0. rewrite Es in H0. cbn [snd] in H0. simpl in H0.
  split; [done|]. by apply Hz.
Qed.

Lemma zero_disposal_metrics_witness :
  exists m,
    (calculate demo_world [demo_a1; demo_a2] "wallet").2 = Ok m
    /\ win_rate m = 0%Qc /\ average_holding_time_seconds m = 0%Qc.
Proof.
  assert ((mark_to_market (run (demo_world, empty_ledger) [demo_a1; demo_a2]).1
             (holdings (run (demo_world, empty_ledger) [demo_a1; demo_a2]).2) 0%Qc).2
          = Ok (Qc_of_Z (-30))) as Hu.
  { vm_compute. f_equal. apply Qc_is_canon. reflexivity. }
  destruct (zero_disposal_metrics demo_world [demo_a1; demo_a2] "wallet" _ Hu)
    as (m & Hm & _ & _ & _ & _ & _ & Hnone).
  exists m. split; [exact Hm|].
  apply Hnone. repeat constructor; intros H; vm_compute in H; discriminate H.
Defined.

(** ** C7: the screener *)

Lemma qualified_wallets_numeric wallets results nums cap :
  Forall2 (fun b n => py_num b = Ok n) results nums ->
  qualified_wallets wallets results cap =
    Ok (filter (fun p => (cap < p.2)%Qc) (zip wallets nums)).*1.
Proof.
  intros H. revert wallets. induction H as [|b n results nums Hb _ IH]; intros wallets.
  - by destruct wallets.
  - destruct wallets as [|a wallets]; [done|]. simpl. rewrite Hb, IH. simpl.
    rewrite filter_cons. simpl. by destruct (decide (cap < n)%Qc).
Qed.

Lemma insert_desc_perm x l : insert_desc x l ≡ₚ x :: l.
Proof.
  induction l as [|y l IH]; simpl; [done|].
  destruct (decide (total_pnl_usd x < total_pnl_usd y)%Qc); [|done].
  rewrite IH. apply Permutation_swap.
Qed.

Lemma sorted_desc_perm l : sorted_desc l ≡ₚ l.
Proof.
  induction l as [|x l IH]; simpl; [done|]. by rewrite insert_desc_perm, IH.
Qed.

Lemma insert_desc_sorted x l :
  StronglySorted (fun a b => (total_pnl_usd b ≤ total_pnl_usd a)%Qc) l ->
  StronglySorted (fun a b => (total_pnl_usd b ≤ total_pnl_usd a)%Qc) (insert_desc x l).
Proof.
  induction 1 as [|y l Hs IH Hy]; simpl; [by repeat constructor|].
  destruct (decide (total_pnl_usd x < total_pnl_usd y)%Qc) as [Hlt|Hge].
  - constructor; [done|]. rewrite insert_desc_perm. constructor; [|done].
    by apply Qclt_le_weak.
  - apply Qcnot_lt_le in Hge. constructor; [by constructor|].
    constructor; [done|]. eapply Forall_impl; [exact Hy|].
    simpl. intros z Hz. by eapply Qcle_trans.
Qed.

Lemma sorted_desc_sorted l :
  StronglySorted (fun a b => (total_pnl_usd b ≤ total_pnl_usd a)%Qc) (sorted_desc l).
Proof.
  induction l as [|x l IH]; simpl; [constructor|]. by apply insert_desc_sorted.
Qed.

(** C7.  With numeric balances, the balance filter keeps exactly the
    addresses whose balance is strictly greater than the minimum capital
    (in their order); a row is emitted exactly when it meets the three
    inclusive thresholds; the emitted rows are those rows, each as often as
    it occurred, in descending order of total PnL. *)
Theorem screener_filter_and_order (wallets : list string) (results : list json)
    (nums : list Qc) (minimum_wallet_capital : Qc)
    (final_results : list wallet_metrics)
    (minimum_win_rate : Qc) (mimimum_average_holding_period : Z) (minimum_total_pnl : Qc) :
  Forall2 (fun b n => py_num b = Ok n) results nums ->
  let out := sorted_results final_results minimum_win_rate
               mimimum_average_holding_period minimum_total_pnl in
  let pass := fun r =>
    (minimum_win_rate ≤ win_rate r)%Qc
    /\ (Qc_of_Z mimimum_average_holding_period ≤ average_holding_time_seconds r)%Qc
    /\ (minimum_total_pnl ≤ total_pnl_usd r)%Qc in
  (exists qualified,
      qualified_wallets wallets results minimum_wallet_capital = Ok qualified
      /\ qualified =
           (filter (fun p => (minimum_wallet_capital < p.2)%Qc) (zip wallets nums)).*1
      /\ (forall a, a ∈ qualified <->
            exists b, (a, b) ∈ zip wallets nums /\ (minimum_wallet_capital < b)%Qc))
  /\ (forall r, r ∈ out <-> r ∈ final_results /\ pass r)
  /\ out ≡ₚ filter pass final_results
  /\ StronglySorted (fun a b => (total_pnl_usd b ≤ total_pnl_usd a)%Qc) out.
Proof.
  intros Hnum out pass.
  assert (forall r, meets_thresholds minimum_win_rate mimimum_average_holding_period
                      minimum_total_pnl r = true <-> pass r) as Hpass.
  { intros r. unfold meets_thresholds, pass.
    rewrite !andb_true_iff, !bool_decide_eq_true. tauto. }
  assert (out ≡ₚ filter pass final_results) as Hperm.
  { unfold out, sorted_results. rewrite sorted_desc_perm.
    clear -Hpass. induction final_results as [|r l IH]; [done|].
    rewrite !filter_cons.
    destruct (decide (meets_thresholds _ _ _ r = true)) as [Hm|Hm];
      destruct (decide (pass r)) as [Hp|Hp].
    - by rewrite IH.
    - by apply Hpass in Hm.
    - by apply Hpass in Hp.
    - done. }
  split_and!.
  - eexists. split; [by apply qualified_wallets_numeric|]. split; [done|].
    intros a. rewrite list_elem_of_fmap. split.
    + intros ([a' b] & -> & Hin). apply list_elem_of_filter in Hin as [Hlt Hin]. eauto.
    + intros (b & Hin & Hlt). exists (a, b). split; [done|].
      by apply list_elem_of_filter.
  - intros r. rewrite Hperm, list_elem_of_filter. tauto.
  - done.
  - apply sorted_desc_sorted.
Qed.

Lemma screener_filter_and_order_witness :
  qualified_wallets ["a"; "b"] [JNum (Qc_of_Z 500); JNum (Qc_of_Z 50)] (Qc_of_Z 100)
    = Ok ["a"]
  /\ StronglySorted (fun a b => (total_pnl_usd b ≤ total_pnl_usd a)%Qc)
       (sorted_results demo_rows (Qc_of_Z 50) 60 0%Qc).
Proof.
  destruct (screener_filter_and_order ["a"; "b"]
              [JNum (Qc_of_Z 500); JNum (Qc_of_Z 50)] [Qc_of_Z 500; Qc_of_Z 50]
              (Qc_of_Z 100) demo_rows (Qc_of_Z 50) 60 0%Qc)
    as ((q & Hq & Heq & _) & _ & _ & Hs).
  { repeat constructor. }
  split; [|exact Hs]. rewrite Hq, Heq. vm_compute. reflexivity.
Defined.

(** ** C8: the inventory invariant *)

(** C8.  Along a chronological sequence, after every event every lot of
    every queue has a quantity above zero and every queue is in ascending
    order of acquisition time; and an event changes a queue only by pushing
    one lot at its tail (an acquisition) or by consuming it from its head,
    a partly consumed lot staying at the head with its unit cost and its
    acquisition time (a disposal). *)
Theorem inventory_invariant (w : world) (txs : list transaction) (n : nat)
    (tx : transaction) :
  chronological txs ->
  txs !! n = Some tx ->
  let s := run (w, empty_ledger) (take n txs) in
  let s' := process s tx in
  s' = run (w, empty_ledger) (take (S n) txs)
  /\ inventory_ok (timestamp tx) (holdings s'.2)
  /\ (forall tok,
        Forall (fun lot => (0 < buy_amount lot)%Qc) (queue (holdings s'.2) tok)
        /\ oldest_first (queue (holdings s'.2) tok))
  /\ (forall tok, queue_step tx (queue (holdings s.2) tok) (queue (holdings s'.2) tok)).
Proof.
  intros Hc Hn s s'.
  assert (s' = run (w, empty_ledger) (take (S n) txs)) as Hs'.
  { subst s' s. by rewrite (take_S_r _ _ _ Hn), run_snoc. }
  assert (inventory_ok (timestamp tx) (holdings s'.2)) as Hinv.
  { rewrite Hs'. apply run_inventory_ok; [by apply chronological_take|].
    rewrite (take_S_r _ _ _ Hn). apply Forall_app. split; [|by repeat constructor].
    apply (chronological_snoc _ tx). rewrite <- (take_S_r _ _ _ Hn).
    by apply chronological_take. }
  split_and!; try done.
  - intros tok. destruct (inventory_ok_queue _ _ tok Hinv) as (Hok & Hs & _).
    split; [|done]. eapply Forall_impl; [exact Hok|]. by intros lot [? _].
  - intros tok. subst s'. destruct s as [w1 l1].
    destruct (process (w1, l1) tx) as [w2 l2] eqn:E. cbn [snd].
    by eapply process_queue_step.
Qed.

Lemma inventory_invariant_witness :
  inventory_ok 300 (holdings (process (run (demo_world, empty_ledger) [demo_a1; demo_a2]) demo_d).2).
Proof.
  assert (chronological demo_txs) as Hc.
  { repeat constructor; simpl; lia. }
  destruct (inventory_invariant demo_world demo_txs 2 demo_d Hc eq_refl) as (_ & H & _).
  exact H.
Defined.

(** ** C10: disposals are counted when their price lookup returns *)

Lemma dispose_counts w l tx w' v :
  (token_amount tx < 0)%Qc ->
  token_price w (timestamp tx) (token tx) = (w', Ok v) ->
  total_sales (process (w, l) tx).2 = S (total_sales l).
Proof.
  intros Hneg Hp. unfold process.
  destruct (decide (0 < token_amount tx)%Qc) as [Hpos|_].
  { exfalso. exact (Qclt_not_eq _ _ (Qclt_trans _ _ _ Hpos Hneg) eq_refl). }
  destruct (decide (token_amount tx < 0)%Qc); [|done].
  rewrite Hp. destruct (sell_lots _ _ _ _) as [[q' [[pnl ht]|e]]|]; done.
Qed.

Lemma matched_pnl_zero_price ms : matched_pnl 0%Qc ms = (- matched_cost ms)%Qc.
Proof.
  induction ms as [|m ms IH]; simpl; [ring|]. rewrite IH. ring.
Qed.

Lemma fifo_match_matches_ok need q :
  Forall lot_ok q ->
  Forall (fun m => (0 < buy_price_usd m.1)%Qc /\ (0 < m.2)%Qc) (fifo_match need q).1.
Proof.
  intros Hq. revert need. induction Hq as [|lot q [Ha Hc] _ IH]; intros need; simpl;
    [constructor|].
  destruct (decide (0 < need)%Qc) as [Hneed|_]; [|constructor].
  destruct (decide (need < buy_amount lot)%Qc); simpl.
  - by repeat constructor.
  - specialize (IH (need - buy_amount lot)%Qc).
    destruct (fifo_match (need - buy_amount lot) q). simpl in *. by repeat constructor.
Qed.

Lemma matched_cost_nonneg ms :
  Forall (fun m => (0 < buy_price_usd m.1)%Qc /\ (0 < m.2)%Qc) ms ->
  (0 ≤ matched_cost ms)%Qc.
Proof.
  induction 1 as [|m ms [Hc Hm] _ IH]; simpl; [apply Qcle_refl|].
  pose proof (Qcmult_pos_pos _ _ Hc Hm). qc_lra.
Qed.

Lemma matched_cost_pos m ms :
  Forall (fun m => (0 < buy_price_usd m.1)%Qc /\ (0 < m.2)%Qc) (m :: ms) ->
  (0 < matched_cost (m :: ms))%Qc.
Proof.
  intros H. inversion H as [|? ? [Hc Hm] Hms]; subst. simpl.
  pose proof (Qcmult_pos_pos _ _ Hc Hm). pose proof (matched_cost_nonneg ms Hms).
  qc_lra.
Qed.

(** C10, as it fails.  The peer cannot be reached: the lookup of the
    disposal raises, the event is skipped by the [except] of the loop
    before [total_sales] is touched, and three such disposals in a row
    leave the count of sales at zero. *)
Lemma disposal_dropped_when_lookup_raises :
  (token_amount demo_d < 0)%Qc
  /\ (token_price demo_offline (timestamp demo_d) (token demo_d)).2 = Raise ClientError
  /\ total_sales (process (demo_offline, demo_aged) demo_d).2 = total_sales demo_aged
  /\ total_sales (run (demo_offline, demo_aged) [demo_d; demo_d; demo_d]).2 = 0%nat.
Proof. split_and!; vm_compute; reflexivity. Qed.

(** C10, as the code has it.  A disposal whose price lookup returns,
    whatever it returns and whatever the inventory holds, raises the count
    of sales by exactly one.  When the price returned is 0 and there are
    lots, the lots are consumed as for any disposal and the PnL booked for
    the disposal is minus the cost basis consumed, which is below zero: the
    sale is counted and is not a win.  A disposal whose price lookup raises
    is skipped: it is not counted and the ledger stays as it was. *)
Theorem disposals_never_dropped (w : world) (l : ledger) (tx : transaction) :
  (token_amount tx < 0)%Qc ->
  let l' := (process (w, l) tx).2 in
  let m := fifo_match (Qcabs (token_amount tx)) (queue (holdings l) (token tx)) in
  match (token_price w (timestamp tx) (token tx)).2 with
  | Raise _ => l' = l
  | Ok v =>
      total_sales l' = S (total_sales l)
      /\ (py_num v = Ok 0%Qc ->
          Forall lot_ok (queue (holdings l) (token tx)) ->
          queue (holdings l') (token tx) = m.2
          /\ pnl_records l' = pnl_records l ++ [(- matched_cost m.1)%Qc]
          /\ realized_pnl l' = (realized_pnl l - matched_cost m.1)%Qc
          /\ wins l' = wins l
          /\ (queue (holdings l) (token tx) <> [] ->
              m.1 <> [] /\ (- matched_cost m.1 < 0)%Qc))
  end.
Proof.
  intros Hneg l' m.
  destruct (token_price w (timestamp tx) (token tx)) as [w' [v|e]] eqn:Hp; cbn [snd].
  2:{ subst l'. unfold process. rewrite Hp.
      destruct (decide (0 < token_amount tx)%Qc); [done|].
      by destruct (decide (token_amount tx < 0)%Qc). }
  split; [by eapply dispose_counts|].
  intros Hv Hok.
  destruct (dispose_books w l tx w' v 0%Qc Hneg Hp Hv) as (Q & R & Z & _ & _ & W).
  fold m in Q, R, Z, W. fold l' in Q, R, Z, W.
  rewrite matched_pnl_zero_price in R, Z, W.
  pose proof (fifo_match_matches_ok (Qcabs (token_amount tx)) _ Hok) as Hms.
  fold m in Hms. pose proof (matched_cost_nonneg _ Hms) as Hnn.
  split_and!; try done.
  - rewrite W. destruct (decide (0 < - matched_cost m.1)%Qc) as [Hwin|_]; [|done].
    exfalso. qc_lra.
  - intros Hq. pose proof (Qcabs_neg_pos _ Hneg) as Hneed. subst m.
    destruct (queue (holdings l) (token tx)) as [|lot q]; [done|].
    simpl in *. destruct (decide (0 < Qcabs (token_amount tx))%Qc); [|done].
    destruct (decide (Qcabs (token_amount tx) < buy_amount lot)%Qc).
    + split; [done|]. pose proof (matched_cost_pos _ _ Hms). simpl in *. qc_lra.
    + destruct (fifo_match _ q) as [ms rest]. split; [done|].
      pose proof (matched_cost_pos _ _ Hms). simpl in *. qc_lra.
Qed.

Lemma disposals_never_dropped_witness :
  total_sales (process (demo_world, demo_aged) demo_unpriced_d).2 = 1%nat
  /\ wins (process (demo_world, demo_aged) demo_unpriced_d).2 = 0%nat
  /\ (process (demo_offline, demo_aged) demo_d).2 = demo_aged.
Proof.
  assert (token_amount demo_unpriced_d < 0)%Qc as Hneg by (vm_compute; reflexivity).
  assert (token_amount demo_d < 0)%Qc as Hneg' by (vm_compute; reflexivity).
  pose proof (disposals_never_dropped demo_world demo_aged demo_unpriced_d Hneg) as H.
  pose proof (disposals_never_dropped demo_offline demo_aged demo_d Hneg') as H'.
  cbv zeta in H, H'.
  assert ((token_price demo_world (timestamp demo_unpriced_d) (token demo_unpriced_d)).2
          = Ok (JNum 0%Qc)) as Hp by (vm_compute; reflexivity).
  assert ((token_price demo_offline (timestamp demo_d) (token demo_d)).2
          = Raise ClientError) as Hp' by (vm_compute; reflexivity).
  rewrite Hp in H. rewrite Hp' in H'.
  destruct H as [S' H]. split; [exact S'|]. split; [|exact H'].
  destruct (H eq_refl) as (_ & _ & _ & W & _); [|exact W].
  repeat constructor.
Defined.

(** ** C9: [timeframe_to_seconds] *)

Lemma append_cons c (s t : string) : String c s +:+ t = String c (s +:+ t).
Proof. done. Qed.

Lemma append_nil (t : string) : "" +:+ t = t.
Proof. done. Qed.

Lemma append_assoc (a b c : string) : (a +:+ b) +:+ c = a +:+ (b +:+ c).
Proof. induction a as [|x a IH]; [done|]. by rewrite !append_cons, IH. Qed.

Lemma length_snoc s c : (String.length (s +:+ String c "") - 1 = String.length s)%nat.
Proof.
  induction s as [|x s IH]; [done|]. rewrite append_cons. simpl in *.
  destruct s; [done|]. rewrite append_cons in *. simpl in *. lia.
Qed.

Lemma but_last_snoc s c : but_last (s +:+ String c "") = s.
Proof.
  unfold but_last. rewrite length_snoc.
  induction s as [|x s IH]; [done|]. rewrite append_cons. simpl. by rewrite IH.
Qed.

Lemma last_char_snoc s c : last_char (s +:+ String c "") = Ok (String c "").
Proof.
  unfold last_char. rewrite length_snoc.
  assert (String.get (String.length s) (s +:+ String c "") = Some c) as ->; [|done].
  induction s as [|x s IH]; [done|]. rewrite append_cons. simpl. exact IH.
Qed.

Lemma lstrip_no_space s : no_space s -> lstrip s = s.
Proof. destruct s as [|c s]; simpl; [done|]. by intros [-> _]. Qed.

Lemma rstrip_no_space s : no_space s -> rstrip s = s.
Proof.
  induction s as [|c s IH]; simpl; [done|]. intros [Hc Hs].
  rewrite (IH Hs), Hc. by destruct s.
Qed.

Lemma strip_no_space s : no_space s -> strip s = s.
Proof. intros H. unfold strip. by rewrite (lstrip_no_space _ H), rstrip_no_space. Qed.

Lemma digit_not_space c : is_Some (digit_of c) -> is_space c = false.
Proof.
  destruct c as [[] [] [] [] [] [] [] []]; vm_compute; intros H;
    first [reflexivity | by destruct H].
Qed.

Lemma all_digits_no_space s : all_digits s -> no_space s.
Proof.
  induction s as [|c s IH]; simpl; [done|]. intros [Hc Hs].
  split; [by apply digit_not_space | by apply IH].
Qed.

Lemma no_space_app s t : no_space s -> no_space t -> no_space (s +:+ t).
Proof.
  induction s as [|c s IH]; [done|]. rewrite append_cons. simpl.
  intros [? ?] ?. split; auto.
Qed.

Lemma digit_of_pretty_N_char d :
  (d < 10)%N -> digit_of (pretty_N_char d) = Some (Z.of_N d).
Proof.
  intros Hd.
  assert (d = 0 \/ d = 1 \/ d = 2 \/ d = 3 \/ d = 4 \/ d = 5 \/ d = 6 \/ d = 7
          \/ d = 8 \/ d = 9)%N as H by lia.
  repeat (destruct H as [->|H]; [vm_compute; reflexivity|]). subst.
  vm_compute. reflexivity.
Qed.

Lemma pretty_N_go_app x s t : pretty_N_go x s +:+ t = pretty_N_go x (s +:+ t).
Proof.
  revert s. induction (N.lt_wf_0 x) as [x _ IH]; intros s.
  assert (x = 0 \/ 0 < x)%N as [->|Hx] by lia; [done|].
  rewrite (pretty_N_go_step x s), (pretty_N_go_step x (s +:+ t)) by done.
  rewrite IH by (by apply N.div_lt). by rewrite append_cons.
Qed.

Lemma pretty_N_go_all_digits x s : all_digits s -> all_digits (pretty_N_go x s).
Proof.
  revert s. induction (N.lt_wf_0 x) as [x _ IH]; intros s Hs.
  assert (x = 0 \/ 0 < x)%N as [->|Hx] by lia; [done|].
  rewrite pretty_N_go_step by done. apply IH; [by apply N.div_lt|].
  split; [|done]. rewrite digit_of_pretty_N_char; [eauto|]. by apply N.mod_lt.
Qed.

Lemma pretty_N_all_digits (n : N) : all_digits (pretty n).
Proof.
  unfold pretty, pretty_N. destruct (decide (n = 0%N)); [by compute; eauto|].
  by apply pretty_N_go_all_digits.
Qed.

(** Reading the digits [pretty] wrote gives the number back, in front of
    whatever follows. *)
Lemma int_digits_pretty_N_go x s acc seen :
  (0 < x)%N ->
  exists k, 0 <= k /\
    int_digits acc seen (pretty_N_go x s) = int_digits (acc * 10 ^ k + Z.of_N x) true s.
Proof.
  revert s. induction (N.lt_wf_0 x) as [x _ IH]; intros s Hx.
  rewrite pretty_N_go_step by done.
  pose proof (N.mod_lt x 10 ltac:(done)) as Hmod.
  pose proof (N.div_mod x 10 ltac:(done)) as Hdiv.
  assert (x `div` 10 = 0 \/ 0 < x `div` 10)%N as [H0|Hpos] by lia.
  - rewrite H0, pretty_N_go_0. simpl. rewrite digit_of_pretty_N_char by done.
    exists 1. split; [lia|]. f_equal. lia.
  - destruct (IH (x `div` 10)%N ltac:(by apply N.div_lt)
                (String (pretty_N_char (x `mod` 10)) s) Hpos) as (k & Hk & ->).
    simpl. rewrite digit_of_pretty_N_char by done.
    exists (k + 1). split; [lia|]. f_equal. rewrite Z.pow_add_r by lia. lia.
Qed.

Lemma int_digits_pretty (n : N) t :
  int_digits 0 false (pretty n +:+ t) = int_digits (Z.of_N n) true t.
Proof.
  unfold pretty, pretty_N. destruct (decide (n = 0%N)) as [->|Hn]; [done|].
  rewrite pretty_N_go_app, append_nil.
  destruct (int_digits_pretty_N_go n t 0 false ltac:(lia)) as (k & _ & ->).
  by f_equal.
Qed.

Lemma split_sign_digit c s :
  is_Some (digit_of c) -> split_sign (String c s) = (1, String c s).
Proof.
  destruct c as [[] [] [] [] [] [] [] []]; vm_compute; intros H;
    first [reflexivity | by destruct H].
Qed.

Lemma append_empty_r (s : string) : s +:+ "" = s.
Proof. induction s as [|c s IH]; [done|]. by rewrite append_cons, IH. Qed.

Lemma pretty_N_head (n : N) :
  exists c s, pretty n = String c s /\ is_Some (digit_of c).
Proof.
  pose proof (pretty_N_all_digits n) as Hd.
  destruct (pretty n) as [|c s] eqn:E.
  - exfalso. unfold pretty, pretty_N in E.
    destruct (decide (n = 0%N)) as [|Hn]; [done|].
    rewrite pretty_N_go_step in E by lia.
    rewrite <- (append_nil (String _ "")), <- pretty_N_go_app in E.
    by destruct (pretty_N_go (n `div` 10) "").
  - destruct Hd as [Hc _]. eauto.
Qed.

Lemma py_int_pretty_app (n : N) t :
  no_space t ->
  py_int (pretty n +:+ t) =
    match int_digits (Z.of_N n) true t with
    | Some v => Ok v
    | None => Raise ValueError
    end.
Proof.
  intros Ht. unfold py_int.
  rewrite strip_no_space
    by (apply no_space_app; [apply all_digits_no_space, pretty_N_all_digits | done]).
  destruct (pretty_N_head n) as (c & s & E & Hc).
  rewrite E, append_cons, (split_sign_digit _ _ Hc), <- append_cons, <- E.
  rewrite int_digits_pretty. destruct (int_digits (Z.of_N n) true t) as [v|]; [|done].
  f_equal. lia.
Qed.

Lemma pretty_app_not_all (n : N) t : pretty n +:+ t <> "all".
Proof.
  destruct (pretty_N_head n) as (c & s & E & Hc). rewrite E, append_cons.
  intros [= -> _]. by destruct Hc.
Qed.

(** C9, as the code has it.  For every natural number [n] written in
    decimal: followed by one of the one-letter units s, h, d, w, m, y the
    result is [n] times 1, 3600, 86400, 604800, 2592000, 31536000 seconds;
    followed by the two-letter unit mi the call raises [ValueError] (only
    the last character selects the unit, and the letter m is left in front
    of [int]); the literal all gives the current epoch time. *)
Theorem timeframe_to_seconds_units (w : world) (n : N) :
  (forall u d, (u, d) ∈ short_units ->
     timeframe_to_seconds w (pretty n +:+ u) = Ok (Z.of_N n * d))
  /\ timeframe_to_seconds w (pretty n +:+ "mi") = Raise ValueError
  /\ timeframe_to_seconds w "5mi" = Raise ValueError
  /\ timeframe_to_seconds w "all" = Ok (now w).
Proof.
  split_and!; [| | done..].
  - intros u d Hin. unfold timeframe_to_seconds.
    destruct (decide (pretty n +:+ u = "all")) as [E|_];
      [by apply pretty_app_not_all in E|].
    unfold short_units in Hin.
    repeat (apply elem_of_cons in Hin as [[= -> ->]|Hin];
            [rewrite but_last_snoc, last_char_snoc;
             rewrite <- (append_empty_r (pretty n)), py_int_pretty_app by done;
             done|]).
    by apply elem_of_nil in Hin.
  - unfold timeframe_to_seconds.
    destruct (decide (pretty n +:+ "mi" = "all")) as [E|_];
      [by apply pretty_app_not_all in E|].
    change "mi" with ("m" +:+ "i"). rewrite <- append_assoc, but_last_snoc.
    by rewrite py_int_pretty_app.
Qed.

Lemma timeframe_to_seconds_units_witness :
  timeframe_to_seconds demo_world "5h" = Ok 18000
  /\ timeframe_to_seconds demo_world "5m" = Ok 12960000.
Proof.
  destruct (timeframe_to_seconds_units demo_world 5) as [H _].
  split.
  - apply (H "h" 3600). vm_compute. repeat constructor.
  - apply (H "m" 2592000). vm_compute. repeat constructor.
Defined.

(** * Further properties of the code *)

(** ** The price cache *)

(** The three shapes the cache can have after a lookup. *)
Lemma token_price_cache_cases w ts tok :
  let c := token_prices w in
  let c' := token_prices (token_price w ts tok).1 in
  c' = c
  \/ (c !! tok = None /\ c' = <[tok := ∅]> c)
  \/ (cached w ts tok = None /\
      exists price, c' = <[tok := <[pretty ts := price]> (default ∅ (c !! tok))]> c).
Proof.
  unfold cached, token_price, fetch. simpl.
  destruct (token_prices w !! tok) as [entry|] eqn:E; simpl.
  - rewrite E. simpl. destruct (entry !! pretty ts) as [v|] eqn:Ev; [by left|].
    destruct (server w (requests w) _) as [[status body]|e]; simpl; [|by left].
    destruct (match decide (status = 200) with left _ => _ | right _ => _ end)
      as [data|e]; [|by left].
    destruct (price_of_data data) as [[price|]|e]; simpl; [|by left..].
    right. right. split; [done|]. by exists price.
  - rewrite lookup_insert_eq. simpl. rewrite lookup_empty.
    destruct (server w (requests w) _) as [[status body]|e]; simpl;
      [|right; left; done].
    destruct (match decide (status = 200) with left _ => _ | right _ => _ end)
      as [data|e]; [|right; left; done].
    destruct (price_of_data data) as [[price|]|e]; simpl; [|right; left; done..].
    right. right. split; [done|]. exists price. by rewrite insert_insert_eq.
Qed.

(** X1.  The cache only grows: a price that is cached, for any key, is
    still cached with the same value after any lookup. *)
Theorem token_price_cache_monotone (w : world) (ts : Z) (tok : string)
    (ts' : Z) (tok' : string) (v : json) :
  cached w ts' tok' = Some v ->
  cached (token_price w ts tok).1 ts' tok' = Some v.
Proof.
  intros Hc.
  destruct (token_price_cache_cases w ts tok) as [H|[[Hn H]|[Hmiss [price H]]]];
    unfold cached in *; cbv zeta in H; rewrite H; clear H.
  - done.
  - destruct (decide (tok = tok')) as [->|Hne].
    + by rewrite Hn in Hc.
    + by rewrite lookup_insert_ne.
  - destruct (decide (tok = tok')) as [->|Hne]; [|by rewrite lookup_insert_ne].
    rewrite lookup_insert_eq. simpl.
    destruct (token_prices w !! tok') as [entry|] eqn:E; simpl in *; [|done].
    destruct (decide (pretty ts = pretty ts')) as [Heq|Hne].
    + rewrite Heq in Hmiss. by rewrite Hmiss in Hc.
    + by rewrite lookup_insert_ne.
Qed.

Lemma token_price_cache_monotone_witness :
  cached (token_price (token_price demo_world 100 "T").1 200 "T").1 100 "T"
    = Some (JNum (Qc_of_Z 1)).
Proof.
  apply token_price_cache_monotone. vm_compute. reflexivity.
Defined.

(** X2.  A lookup issues no request when the key is cached and exactly one
    request, for the URL of this key, when it is not: whatever the peer
    answers, and also when the transport fails. *)
Theorem token_price_requests (w : world) (ts : Z) (tok : string) :
  requests (token_price w ts tok).1 =
    match cached w ts tok with
    | Some _ => requests w
    | None => requests w ++ [price_url tok (pretty ts)]
    end.
Proof.
  destruct (cached w ts tok) as [v|] eqn:E.
  - by rewrite (token_price_hit _ _ _ _ E).
  - destruct (token_price_miss w ts tok E) as (w0 & Hr & _ & _ & _ & _ & ->).
    destruct (remote_answer w ts tok) as [data|e]; [|done].
    by destruct (price_of_data data) as [[price|]|e].
Qed.

(** X3.  When the transport fails, the lookup raises the same exception to
    its caller and no price is cached, for this key or any other. *)
Theorem token_price_transport_failure (w : world) (ts : Z) (tok : string) (e : exn) :
  cached w ts tok = None ->
  remote_answer w ts tok = Raise e ->
  (token_price w ts tok).2 = Raise e
  /\ forall ts' tok', cached (token_price w ts tok).1 ts' tok' = cached w ts' tok'.
Proof.
  intros Hmiss Hans.
  pose proof (token_price_cache_cases w ts tok) as Hcases. cbv zeta in Hcases.
  unfold token_price, remote_answer, fetch, cached in *. simpl in *.
  destruct (token_prices w !! tok) as [entry|] eqn:E; simpl in *.
  - rewrite E in *. simpl in *. rewrite Hmiss in *. rewrite Hans in *. simpl. done.
  - rewrite lookup_insert_eq in *. simpl in *. rewrite lookup_empty in *.
    rewrite Hans in *. simpl. split; [done|]. intros ts' tok'.
    destruct (decide (tok = tok')) as [<-|Hne].
    + by rewrite lookup_insert_eq, E.
    + by rewrite lookup_insert_ne.
Qed.

Lemma token_price_transport_failure_witness :
  (token_price demo_offline 100 "T").2 = Raise ClientError
  /\ cached (token_price demo_offline 100 "T").1 100 "T" = None.
Proof.
  destruct (token_price_transport_failure demo_offline 100 "T" ClientError) as [H1 H2];
    [vm_compute; reflexivity..|].
  split; [exact H1|]. rewrite H2. vm_compute. reflexivity.
Defined.

(** ** [wallet_balance] *)

(** X4.  [wallet_balance] issues one request and leaves the price cache
    alone.  When [fetch] raises (the transport fails, or the body of a 200
    response is not JSON) the exception reaches the caller: the call is
    outside the [try].  When [fetch] returns, a value is returned: 0 when
    the status is not 200, when the body is falsy or its success flag is
    missing or falsy, and when the decoded body has another shape (an
    exception inside the [try]); otherwise the [totalUsd] of the body (0 if
    absent).  With a minimum capital of zero or more, a wallet whose balance
    came back as this 0 is not kept by the filter. *)
Theorem wallet_balance_failure_is_zero (w : world) (wallet : string) :
  let r := wallet_balance w wallet in
  requests r.1 = requests w ++ [balance_url wallet]
  /\ token_prices r.1 = token_prices w
  /\ match (fetch w (balance_url wallet)).2 with
     | Raise e => r.2 = Raise e
     | Ok data =>
         (exists balance, r.2 = Ok balance)
         /\ ((data = None
              \/ (exists j, data = Some j /\
                    (truthy j = false
                     \/ (exists ok, dict_get j "success" JNull = Ok ok /\ truthy ok = false)
                     \/ (exists e, balance_of_data data = Raise e)))) ->
             r.2 = Ok (JNum 0%Qc)
             /\ forall wallets results minimum_wallet_capital,
                  (0 ≤ minimum_wallet_capital)%Qc ->
                  qualified_wallets (wallet :: wallets) (JNum 0%Qc :: results)
                    minimum_wallet_capital
                  = qualified_wallets wallets results minimum_wallet_capital)
         /\ (forall j d total,
               data = Some j -> truthy j = true ->
               (exists ok, dict_get j "success" JNull = Ok ok /\ truthy ok = true) ->
               dict_item j "data" = Ok d -> dict_get d "totalUsd" (JNum 0%Qc) = Ok total ->
               r.2 = Ok total)
     end.
Proof.
  intros r. subst r. unfold wallet_balance.
  destruct (fetch w (balance_url wallet)) as [w1 d] eqn:E.
  assert (w1 = log_request (balance_url wallet) w) as -> by (by injection E as <- _).
  cbn [fst snd]. destruct d as [data|e]; cbn [fst snd]; [|done].
  split_and!; try done.
  - eauto.
  - intros Hfail.
    assert (match balance_of_data data with Ok b => b | Raise _ => JNum 0%Qc end
            = JNum 0%Qc) as ->.
    { destruct Hfail as [->|(j & -> & [Hj|[(ok & Hok & Hf')|(e & ->)]])]; [done| | |done].
      - simpl. by rewrite Hj.
      - simpl. destruct (truthy j); [|done]. rewrite Hok. simpl. by rewrite Hf'. }
    split; [done|]. intros wallets results cap Hcap. simpl.
    destruct (qualified_wallets wallets results cap) as [rest|e]; simpl; [|done].
    destruct (decide (cap < 0)%Qc) as [Hlt|_]; [|done].
    exfalso. by apply (Qcle_not_lt _ _ Hcap).
  - intros j d total -> Hj (ok & Hok & Ht) Hd Htot. simpl.
    by rewrite Hj, Hok; simpl; rewrite Ht, Hd; simpl; rewrite Htot.
Qed.

Lemma wallet_balance_failure_is_zero_witness :
  (wallet_balance demo_world "abc").2 = Ok (JNum 0%Qc)
  /\ (wallet_balance demo_garbled "abc").2 = Raise ValueError.
Proof.
  pose proof (wallet_balance_failure_is_zero demo_world "abc") as (_ & _ & H).
  pose proof (wallet_balance_failure_is_zero demo_garbled "abc") as (_ & _ & H').
  assert ((fetch demo_world (balance_url "abc")).2 = Ok None) as E
    by (vm_compute; reflexivity).
  assert ((fetch demo_garbled (balance_url "abc")).2 = Raise ValueError) as E'
    by (vm_compute; reflexivity).
  rewrite E in H. rewrite E' in H'. split; [|exact H'].
  destruct H as (_ & H & _). apply H. by left.
Defined.

(** ** Events the engine skips or half-processes *)

(** X5.  When the price lookup of an event raises (a transport failure),
    the event leaves every accumulator as it was: an acquisition adds no
    lot and a disposal is not even counted as a sale. *)
Theorem lookup_failure_skips_event (w : world) (l : ledger) (tx : transaction) (e : exn) :
  (token_price w (timestamp tx) (token tx)).2 = Raise e ->
  (process (w, l) tx).2 = l.
Proof.
  intros H. unfold process.
  destruct (token_price w (timestamp tx) (token tx)) as [w1 r]. simpl in H. subst r.
  destruct (decide (0 < token_amount tx)%Qc); [done|].
  by destruct (decide (token_amount tx < 0)%Qc).
Qed.

Lemma lookup_failure_skips_event_witness :
  (process (demo_offline, demo_aged) demo_d).2 = demo_aged.
Proof.
  apply (lookup_failure_skips_event demo_offline demo_aged demo_d ClientError).
  vm_compute. reflexivity.
Defined.

(** X6.  A disposal whose sell price is not a number (a cached or returned
    [null], a string) meets the [TypeError] after the oldest lot has been
    popped: the lot is gone from the queue and the sale is counted, but no
    PnL, win or holding time is booked for it. *)
Theorem non_numeric_sell_price_drops_lot (w : world) (l : ledger) (tx : transaction)
    w' v e lot rest :
  (token_amount tx < 0)%Qc ->
  token_price w (timestamp tx) (token tx) = (w', Ok v) ->
  py_num v = Raise e ->
  queue (holdings l) (token tx) = lot :: rest ->
  let l' := (process (w, l) tx).2 in
  queue (holdings l') (token tx) = rest
  /\ total_sales l' = S (total_sales l)
  /\ pnl_records l' = pnl_records l
  /\ realized_pnl l' = realized_pnl l
  /\ wins l' = wins l
  /\ total_holding_time l' = total_holding_time l.
Proof.
  intros Hneg Hp Hv Hq l'. subst l'. unfold process.
  destruct (decide (0 < token_amount tx)%Qc) as [Hpos|_].
  { exfalso. exact (Qclt_not_eq _ _ (Qclt_trans _ _ _ Hpos Hneg) eq_refl). }
  destruct (decide (token_amount tx < 0)%Qc); [|done].
  rewrite Hp. cbn [count_sale holdings]. rewrite queue_touch, Hq.
  unfold sell_lots. cbn [sell_loop length].
  destruct (decide (0 < Qcabs (token_amount tx))%Qc) as [_|Hn];
    [|by destruct Hn; apply Qcabs_neg_pos].
  destruct lot as [a c t]. rewrite Hv. simpl.
  split; [|done]. apply queue_set_same, touch_is_Some.
Qed.

Lemma non_numeric_sell_price_drops_lot_witness :
  queue (holdings (process (demo_null_world, demo_aged) demo_d).2) "T"
    = [Lot (Qc_of_Z 10) (Qc_of_Z 2) 100]
  /\ total_sales (process (demo_null_world, demo_aged) demo_d).2 = 1%nat
  /\ pnl_records (process (demo_null_world, demo_aged) demo_d).2 = [].
Proof.
  assert (token_amount demo_d < 0)%Qc as Hneg by (vm_compute; reflexivity).
  assert (token_price demo_null_world (timestamp demo_d) (token demo_d)
          = ((token_price demo_null_world 300 "T").1, Ok JNull)) as Hp
    by (vm_compute; reflexivity).
  destruct (non_numeric_sell_price_drops_lot demo_null_world demo_aged demo_d _ JNull
              TypeError (Lot (Qc_of_Z 10) (Qc_of_Z 1) 200)
              [Lot (Qc_of_Z 10) (Qc_of_Z 2) 100] Hneg Hp eq_refl eq_refl)
    as (Q & S' & R & _).
  exact (conj Q (conj S' R)).
Defined.

(** ** The accumulators *)

Lemma sum_list_snoc l x : sum_list (l ++ [x]) = (sum_list l + x)%Qc.
Proof. induction l as [|y l IH]; simpl; [ring|]. rewrite IH. ring. Qed.

Lemma process_ledger_consistent w l tx :
  ledger_consistent l -> ledger_consistent (process (w, l) tx).2.
Proof.
  intros (Hr & Ht & Hw & Hlen).
  destruct (process (w, l) tx) as [w' l'] eqn:E. cbn [snd].
  apply process_cases in E as [->|[(usd & _ & _ & ->)|(price & q' & r & _ & _ & ->)]];
    [done..|].
  destruct r as [[pnl ht]|e]; unfold ledger_consistent; simpl.
  - split_and!.
    + by rewrite sum_list_snoc, Hr.
    + by rewrite Ht.
    + rewrite filter_app, length_app, <- Hw, filter_cons, filter_nil.
      destruct (decide (0 < pnl)%Qc); simpl; lia.
    + rewrite length_app. simpl. lia.
  - split_and!; try done. lia.
Qed.

Lemma run_ledger_consistent s txs :
  ledger_consistent s.2 -> ledger_consistent (run s txs).2.
Proof.
  revert s. induction txs as [|tx txs IH]; intros [w l] H; [done|].
  rewrite run_cons. apply IH. by apply process_ledger_consistent.
Qed.

Lemma empty_ledger_consistent : ledger_consistent empty_ledger.
Proof. unfold ledger_consistent. simpl. split_and!; done. Qed.

Lemma filter_length_le {A} (P : A -> Prop) `{forall x, Decision (P x)} (l : list A) :
  (length (filter P l) <= length l)%nat.
Proof.
  induction l as [|x l IH]; [done|]. rewrite filter_cons.
  destruct (decide (P x)); simpl; lia.
Qed.

Lemma Qc_of_Z_le (a b : Z) : a <= b -> (Qc_of_Z a ≤ Qc_of_Z b)%Qc.
Proof. intros H. unfold Qcle, Qle. simpl. lia. Qed.

Lemma Qc_of_Z_pos (a : Z) : 0 < a -> (0 < Qc_of_Z a)%Qc.
Proof. intros H. unfold Qclt, Qlt. simpl. lia. Qed.

Lemma ratio_percent_bounds (a b : Qc) :
  (0 ≤ a)%Qc -> (a ≤ b)%Qc -> (0 < b)%Qc ->
  (0 ≤ a / b * Qc_of_Z 100)%Qc /\ (a / b * Qc_of_Z 100 ≤ Qc_of_Z 100)%Qc.
Proof.
  intros Ha Hab Hb.
  assert (0 < / b)%Qc as Hinv.
  { destruct (Qclt_le_dec 0 (/ b)) as [|Hle]; [done|]. exfalso.
    assert (b * / b ≤ 0)%Qc as H.
    { rewrite <- (Qcmult_0_r b). apply Qcmult_le_mono_nonneg_l; [|done].
      by apply Qclt_le_weak. }
    rewrite Qcmult_inv_r in H by (by apply Qc_pos_ne0).
    revert H. qc_cmp. }
  assert (0 ≤ a / b)%Qc as H0.
  { unfold Qcdiv. apply Qcmult_nonneg_nonneg; [done|]. by apply Qclt_le_weak. }
  assert (a / b ≤ 1)%Qc as H1.
  { rewrite <- (Qcmult_inv_r b) by (by apply Qc_pos_ne0). unfold Qcdiv.
    apply Qcmult_le_mono_nonneg_r; [|done]. by apply Qclt_le_weak. }
  assert (0 ≤ Qc_of_Z 100)%Qc as H100 by qc_cmp.
  split.
  - by apply Qcmult_nonneg_nonneg.
  - rewrite <- (Qcmult_1_l (Qc_of_Z 100)) at 2.
    by apply Qcmult_le_mono_nonneg_r.
Qed.

(** X8.  In every row [calculate] returns, the realized PnL is the sum of
    the PnL booked for the individual disposals, and the win rate lies
    between 0 and 100: wins are the disposals booked with a PnL above zero,
    and never more than the sales counted. *)
Theorem win_rate_within_bounds (w : world) (txs : list transaction) (who : string)
    (m : wallet_metrics) :
  (calculate w txs who).2 = Ok m ->
  let l := (run (w, empty_ledger) txs).2 in
  ledger_consistent l
  /\ row_realized_pnl m = sum_list (pnl_records l)
  /\ (wins l <= total_sales l)%nat
  /\ (0 ≤ win_rate m)%Qc /\ (win_rate m ≤ Qc_of_Z 100)%Qc.
Proof.
  intros Hm l.
  pose proof (run_ledger_consistent (w, empty_ledger) txs empty_ledger_consistent) as Hl.
  fold l in Hl. destruct Hl as (Hr & Ht & Hw & Hlen).
  assert (wins l <= total_sales l)%nat as Hws.
  { rewrite Hw. etrans; [apply filter_length_le|done]. }
  unfold calculate in Hm. subst l.
  destruct (run (w, empty_ledger) txs) as [w1 l1]. cbn [snd] in *.
  destruct (mark_to_market w1 (holdings l1) 0%Qc) as [w2 [u|e]]; [|done].
  simpl in Hm.
  destruct (final_metrics_ok who l1 u) as (m' & Hm' & _ & Hrow & _ & _ & Hz & Hnz).
  rewrite Hm' in Hm. injection Hm as <-.
  split; [done|]. split; [by rewrite Hrow|]. split; [done|].
  destruct (decide (total_sales l1 = 0%nat)) as [H0|Hn0].
  - destruct (Hz H0) as [-> _]. split; qc_cmp.
  - destruct (Hnz Hn0) as [-> _].
    apply ratio_percent_bounds.
    + apply (Qc_of_Z_le 0). lia.
    + apply Qc_of_Z_le. lia.
    + apply Qc_of_Z_pos. lia.
Qed.

Lemma win_rate_within_bounds_witness :
  exists m, (calculate demo_world demo_txs "wallet").2 = Ok m
    /\ (0 ≤ win_rate m)%Qc /\ (win_rate m ≤ Qc_of_Z 100)%Qc.
Proof.
  destruct (calculate demo_world demo_txs "wallet") as [w1 [m|e]] eqn:E.
  - exists m. split; [done|].
    destruct (win_rate_within_bounds demo_world demo_txs "wallet" m) as (_ & _ & _ & H).
    + by rewrite E.
    + exact H.
  - exfalso. vm_compute in E. discriminate E.
Defined.

(** X9.  An event touches the queue of its own token only. *)
Theorem other_tokens_untouched (w : world) (l : ledger) (tx : transaction) (tok : string) :
  tok <> token tx ->
  queue (holdings (process (w, l) tx).2) tok = queue (holdings l) tok.
Proof.
  intros Hne. destruct (process (w, l) tx) as [w' l'] eqn:E. cbn [snd].
  apply process_cases in E as [->|[(usd & _ & _ & ->)|(price & q' & r & _ & _ & ->)]].
  - done.
  - simpl. by rewrite queue_set_other, queue_touch.
  - rewrite holdings_settle. simpl. by rewrite queue_set_other, queue_touch.
Qed.

Lemma other_tokens_untouched_witness :
  queue (holdings (process (demo_world, demo_aged) demo_d).2) "U" = [].
Proof.
  exact (other_tokens_untouched demo_world demo_aged demo_d "U" ltac:(discriminate)).
Defined.

Lemma touch_keys h tok :
  (touch h tok).*1 = h.*1 ++ (if decide (tok ∈ h.*1) then [] else [tok]).
Proof.
  unfold touch. destruct (assoc tok h) eqn:E.
  - destruct (decide (tok ∈ h.*1)) as [_|Hn]; [by rewrite app_nil_r|].
    apply assoc_None in Hn. by rewrite Hn in E.
  - apply assoc_None in E. destruct (decide (tok ∈ h.*1)); [done|].
    by rewrite fmap_app.
Qed.

(** X10.  Tokens are never removed from [holdings] nor reordered: an event
    leaves the keys as they were or adds its own token at the end, once.
    The closing price lookups of [calculate] therefore go through the
    tokens in the order in which they were first recorded. *)
Theorem holdings_keys_only_grow (w : world) (l : ledger) (tx : transaction) :
  let keys := (holdings l).*1 in
  let keys' := (holdings (process (w, l) tx).2).*1 in
  keys' = keys \/ ((token tx ∉ keys) /\ keys' = keys ++ [token tx]).
Proof.
  intros keys keys'. subst keys keys'.
  destruct (process (w, l) tx) as [w' l'] eqn:E. cbn [snd].
  apply process_cases in E as [->|[(usd & _ & _ & ->)|(price & q' & r & _ & _ & ->)]];
    [by left| |rewrite holdings_settle]; simpl;
    rewrite set_queue_keys, touch_keys;
    (destruct (decide (token tx ∈ (holdings l).*1));
       [left; by rewrite app_nil_r | right; done]).
Qed.

(** X11.  Marking a queue to a numeric price adds [price * quantity held -
    cost basis] to the unrealized PnL; an empty queue adds nothing whatever
    the price is, and a price that is not a number raises [TypeError] as
    soon as there is a lot. *)
Theorem mark_lots_closed_form (current_price : json) (unrealized : Qc) (buys : list lot) :
  mark_lots current_price unrealized [] = Ok unrealized
  /\ (forall p, py_num current_price = Ok p ->
        mark_lots current_price unrealized buys =
          Ok (unrealized + (p * held buys - cost_basis buys))%Qc)
  /\ (forall e, py_num current_price = Raise e -> buys <> [] ->
        mark_lots current_price unrealized buys = Raise e).
Proof.
  split_and!; [done| |].
  - intros p Hp. revert unrealized.
    induction buys as [|[a c t] buys IH]; intros unrealized; simpl.
    + f_equal. ring.
    + rewrite Hp. simpl. rewrite IH. f_equal. ring.
  - intros e He Hne. destruct buys as [|[a c t] buys]; [done|]. simpl. by rewrite He.
Qed.

Lemma mark_lots_closed_form_witness :
  mark_lots (JNum (Qc_of_Z 3)) 0%Qc (queue (holdings demo_aged) "T")
    = Ok (0 + (Qc_of_Z 3 * held (queue (holdings demo_aged) "T")
               - cost_basis (queue (holdings demo_aged) "T")))%Qc
  /\ mark_lots JNull 0%Qc (queue (holdings demo_aged) "T") = Raise TypeError.
Proof.
  destruct (mark_lots_closed_form (JNum (Qc_of_Z 3)) 0%Qc (queue (holdings demo_aged) "T"))
    as (_ & H & _).
  destruct (mark_lots_closed_form JNull 0%Qc (queue (holdings demo_aged) "T"))
    as (_ & _ & H').
  split; [exact (H _ eq_refl) | exact (H' _ eq_refl ltac:(discriminate))].
Defined.

(** X12.  The sales counted never exceed the disposals of the sequence (a
    disposal whose lookup raises is not counted), and every PnL record
    belongs to a counted sale. *)
Theorem sales_bounded_by_disposals (w : world) (txs : list transaction) :
  let l := (run (w, empty_ledger) txs).2 in
  (length (pnl_records l) <= total_sales l)%nat
  /\ (total_sales l <= length (filter (fun tx => (token_amount tx < 0)%Qc) txs))%nat.
Proof.
  intros l. split.
  { by destruct (run_ledger_consistent (w, empty_ledger) txs empty_ledger_consistent)
      as (_ & _ & _ & H). }
  subst l.
  assert (forall s, total_sales (run s txs).2 <=
            total_sales s.2 + length (filter (fun tx => (token_amount tx < 0)%Qc) txs))%nat
    as H; [|exact (H (w, empty_ledger))].
  induction txs as [|tx txs IH]; intros [w0 l0]; [simpl; lia|].
  rewrite run_cons. etrans; [apply IH|]. rewrite filter_cons.
  destruct (process (w0, l0) tx) as [w1 l1] eqn:E. cbn [snd].
  apply process_cases in E as [->|[(usd & Hpos & _ & ->)|(price & q' & r & Hneg & _ & ->)]].
  - destruct (decide (token_amount tx < 0)%Qc); simpl; lia.
  - destruct (decide (token_amount tx < 0)%Qc); simpl; lia.
  - destruct (decide (token_amount tx < 0)%Qc); [|done].
    destruct r as [[pnl ht]|e]; simpl; lia.
Qed.

(** ** The sort of the screener *)

Lemma insert_desc_same_key x l k :
  filter (fun r => total_pnl_usd r = k) (insert_desc x l)
  = filter (fun r => total_pnl_usd r = k) (x :: l).
Proof.
  induction l as [|y l IH]; simpl; [done|].
  destruct (decide (total_pnl_usd x < total_pnl_usd y)%Qc) as [Hlt|_]; [|done].
  rewrite filter_cons, IH, !filter_cons.
  destruct (decide (total_pnl_usd y = k)) as [Hy|Hy];
    destruct (decide (total_pnl_usd x = k)) as [Hx|Hx]; try done.
  exfalso. rewrite Hx, Hy in Hlt. exact (Qclt_not_eq _ _ Hlt eq_refl).
Qed.

(** X13.  The sort is stable: rows with the same total PnL come out in the
    order in which they went in. *)
Theorem sorted_desc_stable (l : list wallet_metrics) (k : Qc) :
  filter (fun r => total_pnl_usd r = k) (sorted_desc l)
  = filter (fun r => total_pnl_usd r = k) l.
Proof.
  induction l as [|x l IH]; [done|]. simpl.
  by rewrite insert_desc_same_key, !filter_cons, IH.
Qed.

(** ** The balance filter on balances that are not numbers *)

(** X14.  The balance filter raises [TypeError], for the whole list, as soon
    as one of the balances it pairs with an address is not a number (a
    [totalUsd] of [null], a string): and only then. *)
Theorem qualified_wallets_type_error (wallets : list string) (results : list json)
    (minimum_wallet_capital : Qc) :
  qualified_wallets wallets results minimum_wallet_capital = Raise TypeError
  <-> Exists (fun b => py_num b = Raise TypeError) (take (length wallets) results).
Proof.
  revert results. induction wallets as [|a wallets IH]; intros results; simpl.
  - rewrite take_0. split; [done|]. by intros H%Exists_nil.
  - destruct results as [|b results]; simpl.
    { split; [done|]. by intros H%Exists_nil. }
    rewrite Exists_cons, <- IH.
    destruct (py_num b) as [balance|e] eqn:Hb; simpl.
    + destruct (qualified_wallets wallets results minimum_wallet_capital) as [rest|e];
        simpl.
      * split; [discriminate | intros [H|H]; discriminate H].
      * split; [by right | intros [H|H]; [discriminate H | exact H]].
    + destruct b; simpl in Hb; try discriminate; injection Hb as <-; tauto.
Qed.

(** ** More on [timeframe_to_seconds] *)

Lemma assoc_unit_char c :
  is_Some (digit_of c) -> assoc (String c "") time_units = None.
Proof.
  destruct c as [[] [] [] [] [] [] [] []]; vm_compute; intros H;
    first [reflexivity | by destruct H].
Qed.

(** X16.  A trailing character that is not one of the letters s, h, d, w,
    m, y is taken for a unit of zero seconds: the call returns 0, without
    an error (a timeframe such as ["5x"], and also ["55"], whose last digit
    is taken for the unit). *)
Theorem timeframe_unknown_unit_is_zero (w : world) (n : N) (c : ascii) :
  assoc (String c "") time_units = None ->
  timeframe_to_seconds w (pretty n +:+ String c "") = Ok 0.
Proof.
  intros Hc. unfold timeframe_to_seconds.
  destruct (decide (pretty n +:+ String c "" = "all")) as [E|_];
    [by apply pretty_app_not_all in E|].
  rewrite but_last_snoc, last_char_snoc.
  rewrite <- (append_empty_r (pretty n)), py_int_pretty_app by done.
  change (int_digits (Z.of_N n) true "") with (Some (Z.of_N n)).
  unfold mbind, result_bind. rewrite Hc. simpl. f_equal. lia.
Qed.

Lemma timeframe_unknown_unit_is_zero_witness :
  timeframe_to_seconds demo_world "5x" = Ok 0
  /\ timeframe_to_seconds demo_world "55" = Ok 0.
Proof.
  split.
  - apply (timeframe_unknown_unit_is_zero demo_world 5 "x"). vm_compute. reflexivity.
  - apply (timeframe_unknown_unit_is_zero demo_world 5 "5"). vm_compute. reflexivity.
Defined.

(** X17.  A timeframe without a number in front of its last character (the
    empty string, a lone unit letter) raises [ValueError]. *)
Theorem timeframe_without_number_raises (w : world) (c : ascii) :
  timeframe_to_seconds w "" = Raise ValueError
  /\ timeframe_to_seconds w (String c "") = Raise ValueError.
Proof.
  split; [done|]. unfold timeframe_to_seconds.
  destruct (decide (String c "" = "all")) as [E|_]; [discriminate E|].
  done.
Qed.

Lemma pretty_Z_head (z : Z) t : pretty z +:+ t <> "all".
Proof.
  destruct z as [|p|p].
  - apply (pretty_app_not_all 0).
  - apply (pretty_app_not_all (Npos p)).
  - discriminate.
Qed.

Lemma py_int_pretty_Z_app (z : Z) t :
  no_space t ->
  py_int (pretty z +:+ t) =
    match int_digits (Z.abs z) true t with
    | Some v => Ok (if decide (z < 0) then - v else v)
    | None => Raise ValueError
    end.
Proof.
  intros Ht. destruct z as [|p|p].
  - etrans; [exact (py_int_pretty_app 0 t Ht)|]. simpl.
    reflexivity.
  - etrans; [exact (py_int_pretty_app (Npos p) t Ht)|]. reflexivity.
  - change (pretty (Z.neg p)) with ("-" +:+ pretty (Npos p)).
    rewrite append_assoc. unfold py_int.
    rewrite strip_no_space.
    2:{ rewrite append_cons, append_nil. split; [vm_compute; reflexivity|].
        apply no_space_app; [apply all_digits_no_space, pretty_N_all_digits | done]. }
    rewrite append_cons, append_nil. cbn [split_sign].
    rewrite int_digits_pretty. change (Z.abs (Z.neg p)) with (Z.pos p).
    change (Z.of_N (N.pos p)) with (Z.pos p).
    destruct (int_digits (Z.pos p) true t) as [v|]; [|done].
    f_equal; case_decide; lia.
Qed.

(** X18.  [int] reads back what [str] wrote for every integer, negative ones
    included; so a timeframe with a minus sign is accepted and gives a
    negative number of seconds. *)
Theorem timeframe_signed_number (w : world) (z : Z) :
  py_int (pretty z) = Ok z
  /\ (forall u d, (u, d) ∈ short_units ->
        timeframe_to_seconds w (pretty z +:+ u) = Ok (z * d)).
Proof.
  assert (py_int (pretty z) = Ok z) as Hz.
  { rewrite <- (append_empty_r (pretty z)), py_int_pretty_Z_app by done. simpl.
    f_equal. case_decide; lia. }
  split; [done|].
  intros u d Hin. unfold timeframe_to_seconds.
  destruct (decide (pretty z +:+ u = "all")) as [E|_];
    [by apply pretty_Z_head in E|].
  unfold short_units in Hin.
  repeat (apply elem_of_cons in Hin as [[= -> ->]|Hin];
          [rewrite but_last_snoc, last_char_snoc, Hz; done|]).
  by apply elem_of_nil in Hin.
Qed.

Lemma timeframe_signed_number_witness :
  timeframe_to_seconds demo_world "-2h" = Ok (-7200).
Proof.
  destruct (timeframe_signed_number demo_world (-2)) as [_ H].
  apply (H "h" 3600). vm_compute. repeat constructor.
Defined.

(** ** [wallet_history]: one page *)

Lemma scan_record_cases env w tx txs txs' :
  scan_record env w tx txs = Ok (Some txs') ->
  txs' = txs
  \/ exists ev, txs' = txs ++ [ev] /\ normalised_from env tx ev /\ in_window env w ev.
Proof.
  unfold scan_record.
  destruct (dict_item tx "blockTime") as [bt|e] eqn:Hbt; simpl; [|done].
  destruct (isoparse env bt) as [ts|e] eqn:Hts; simpl; [|done].
  destruct (timeframe_to_seconds w (timeframe env)) as [secs|e] eqn:Hsecs; simpl; [|done].
  destruct (decide (Qc_of_Z ts < time_time env w - Qc_of_Z secs)%Qc) as [|Hwin]; [done|].
  destruct (dict_item tx "mainAction") as [action|e] eqn:Hact; simpl; [|done].
  destruct action as [| | |a| |]; try (intros [= <-]; by left).
  destruct (bool_decide (a = "unknown")) eqn:Ha; [|intros [= <-]; by left].
  apply bool_decide_eq_true in Ha as ->.
  destruct (dict_item tx "balanceChange") as [legs|e] eqn:Hlegs; simpl; [|done].
  destruct (py_len legs) as [n|e] eqn:Hlen; simpl; [|done].
  destruct (decide (n = 2%nat)) as [->|]; [|intros [= <-]; by left].
  destruct (list_item legs 1) as [leg1|e] eqn:H1; simpl; [|done].
  destruct (dict_item leg1 "name") as [nm|e] eqn:Hnm; simpl; [|done].
  destruct (dict_item leg1 "address") as [ad|e] eqn:Had; simpl; [|done].
  destruct (dict_item leg1 "amount") as [a1|e] eqn:Ha1; simpl; [|done].
  destruct (dict_item leg1 "decimals") as [d1|e] eqn:Hd1; simpl; [|done].
  destruct (convert_json env a1 d1) as [q1|e] eqn:Hq1; simpl; [|done].
  destruct (list_item legs 0) as [leg0|e] eqn:H0; simpl; [|done].
  destruct (dict_item leg0 "amount") as [a0|e] eqn:Ha0; simpl; [|done].
  destruct (dict_item leg0 "decimals") as [d0|e] eqn:Hd0; simpl; [|done].
  destruct (convert_json env a0 d0) as [q0|e] eqn:Hq0; simpl; [|done].
  intros [= <-]. right. eexists. split; [done|].
  assert (legs = JArr [leg0; leg1]) as ->.
  { destruct legs as [| | |s0|l|l]; try discriminate.
    - simpl in H1. destruct (String.get 1 s0); [|done]. injection H1 as <-. done.
    - simpl in Hlen, H0, H1. injection Hlen as Hlen.
      destruct l as [|x [|y [|z l]]]; try discriminate. simpl in *. congruence. }
  split.
  - exists leg0, leg1, a1, d1, a0, d0. rewrite Hbt. simpl. rewrite Hts.
    split_and!; done.
  - exists secs. done.
Qed.

(** What a scan adds to the events it was given: events made from records
    of the page, none older than the window. *)
Lemma scan_page_added env w transactions txs :
  exists added,
    (scan_page env w transactions txs).1 = txs ++ added
    /\ Forall (fun ev => in_window env w ev /\ exists tx, normalised_from env tx ev) added.
Proof.
  revert txs. induction transactions as [|tx rest IH]; intros txs; simpl.
  { exists []. by rewrite app_nil_r. }
  destruct (scan_record env w tx txs) as [[txs'|]|e] eqn:E; [| |apply IH].
  - apply scan_record_cases in E as [->|(ev & -> & Hn & Hw)]; [apply IH|].
    destruct (IH (txs ++ [ev])) as (added & -> & Hall).
    exists (ev :: added). rewrite <- app_assoc. split; [done|].
    constructor; [|done]. split; [done|]. by exists tx.
  - exists []. by rewrite app_nil_r.
Qed.

(** X19.  Scanning a page never loses an event collected before and adds at
    most one event per record, in the order of the page: the events added
    are made from a subsequence of the records, one event from each, in the
    same order.  Every event added comes from a record that is marked
    ["unknown"] and has exactly two legs, carries the name, the address and
    the converted amount of the second leg, and is not older than the
    window. *)
Theorem scan_page_sound (env : history_env) (w : world) (transactions : list json)
    (txs : list Event.t) :
  exists kept : list (json * Event.t),
    (scan_page env w transactions txs).1 = txs ++ kept.*2
    /\ sublist kept.*1 transactions
    /\ (length kept <= length transactions)%nat
    /\ Forall (fun k => normalised_from env k.1 k.2 /\ in_window env w k.2) kept.
Proof.
  revert txs. induction transactions as [|tx rest IH]; intros txs; simpl.
  { exists []. simpl. rewrite app_nil_r. split_and!; [done|constructor|done|constructor]. }
  assert (exists kept : list (json * Event.t),
            (scan_page env w rest txs).1 = txs ++ kept.*2
            /\ sublist kept.*1 (tx :: rest)
            /\ (length kept <= S (length rest))%nat
            /\ Forall (fun k => normalised_from env k.1 k.2 /\ in_window env w k.2) kept)
    as Hskip.
  { destruct (IH txs) as (kept & -> & Hsub & Hlen & Hall). exists kept.
    split_and!; [done|by apply sublist_cons|lia|done]. }
  destruct (scan_record env w tx txs) as [[txs'|]|e] eqn:E; [| |exact Hskip].
  - apply scan_record_cases in E as [->|(ev & -> & Hn & Hw)]; [exact Hskip|].
    destruct (IH (txs ++ [ev])) as (kept & -> & Hsub & Hlen & Hall).
    exists ((tx, ev) :: kept). simpl. rewrite <- app_assoc.
    split_and!; [done|by apply sublist_skip|lia|by constructor].
  - exists []. simpl. rewrite app_nil_r.
    split_and!; [done|apply sublist_nil_l|lia|constructor].
Qed.

Lemma scan_page_sound_witness :
  exists ev,
    (scan_page demo_env demo_world
       [demo_record "900" "swap"; demo_record "900" "unknown"] []).1 = [ev]
    /\ normalised_from demo_env (demo_record "900" "unknown") ev.
Proof.
  destruct (scan_page_sound demo_env demo_world
              [demo_record "900" "swap"; demo_record "900" "unknown"] [])
    as (kept & E & Hsub & _ & Hall).
  destruct kept as [|[tx ev] [|k kept]].
  - exfalso. vm_compute in E. discriminate E.
  - exists ev. split; [exact E|].
    apply Forall_cons in Hall as [[Hn _] _]. simpl in Hn.
    assert (tx = demo_record "900" "unknown") as <-; [|exact Hn].
    destruct Hn as (leg0 & leg1 & _ & _ & _ & _ & Hact & _).
    simpl in Hsub.
    apply sublist_cons_r in Hsub as [Hsub|(l' & Heq & Hsub)].
    + apply sublist_cons_r in Hsub as [Hsub|(l' & Heq & Hsub)].
      * apply sublist_nil_r in Hsub. discriminate Hsub.
      * by injection Heq as ->.
    + injection Heq as -> _. exfalso. vm_compute in Hact. discriminate Hact.
  - exfalso. vm_compute in E. discriminate E.
Defined.

Lemma scan_record_too_old env w tx txs :
  too_old env w tx -> scan_record env w tx txs = Ok None.
Proof.
  intros (ts & secs & Hts & Hsecs & Hold). unfold scan_record.
  destruct (dict_item tx "blockTime") as [bt|e]; simpl in *; [|done].
  rewrite Hts. simpl. rewrite Hsecs. simpl.
  by destruct (decide (Qc_of_Z ts < time_time env w - Qc_of_Z secs)%Qc).
Qed.

(** X20.  The first record older than the window ends the scan and sets
    [eol]: the events are those of the records in front of it, and the
    records behind it are not looked at, whatever they hold. *)
Theorem scan_stops_at_old_record (env : history_env) (w : world)
    (front behind : list json) (old : json) (txs : list Event.t) :
  too_old env w old ->
  (scan_page env w front txs).2 = false ->
  scan_page env w (front ++ old :: behind) txs = ((scan_page env w front txs).1, true).
Proof.
  intros Hold. revert txs. induction front as [|tx front IH]; intros txs Hfront; simpl.
  - by rewrite (scan_record_too_old _ _ _ _ Hold).
  - simpl in Hfront. by destruct (scan_record env w tx txs) as [[txs'|]|e]; auto.
Qed.

Lemma scan_record_bad_timeframe env w tx txs e :
  timeframe_to_seconds w (timeframe env) = Raise e ->
  exists e', scan_record env w tx txs = Raise e'.
Proof.
  intros He. unfold scan_record.
  destruct (dict_item tx "blockTime") as [bt|e1]; simpl; [|eauto].
  destruct (isoparse env bt) as [ts|e2]; simpl; [|eauto].
  rewrite He. simpl. eauto.
Qed.

(** X21.  [timeframe_to_seconds] is evaluated inside the [try], once per
    record: when it raises (a timeframe such as ["5mi"]), every record of
    every page is skipped, so nothing is collected and [eol] is never set
    by a record. *)
Theorem scan_with_bad_timeframe (env : history_env) (w : world)
    (transactions : list json) (txs : list Event.t) (e : exn) :
  timeframe_to_seconds w (timeframe env) = Raise e ->
  scan_page env w transactions txs = (txs, false).
Proof.
  intros He. induction transactions as [|tx rest IH]; [done|]. simpl.
  assert (exists e', scan_record env w tx txs = Raise e') as [e' ->]; [|exact IH].
  by eapply scan_record_bad_timeframe.
Qed.

Lemma scan_with_bad_timeframe_witness :
  scan_page
    {| isoparse := isoparse demo_env; str_of := str_of demo_env;
       frac_pow10 := frac_pow10 demo_env; time_fraction := 0%Qc; timeframe := "5mi" |}
    demo_world [demo_record "900" "unknown"] [] = ([], false).
Proof.
  apply (scan_with_bad_timeframe _ _ _ _ ValueError). vm_compute. reflexivity.
Defined.

Lemma scan_stops_at_old_record_witness :
  scan_page demo_env demo_world
    ([demo_record "900" "unknown"]
     ++ demo_record "-5000" "unknown" :: [demo_record "990" "unknown"]) []
  = ((scan_page demo_env demo_world [demo_record "900" "unknown"] []).1, true).
Proof.
  apply scan_stops_at_old_record.
  - exists (-5000), 3600. split_and!; [vm_compute; reflexivity..].
  - vm_compute. reflexivity.
Defined.

(** ** [wallet_history]: all pages *)

Lemma timeframe_to_seconds_now w w' tf :
  now w = now w' -> timeframe_to_seconds w tf = timeframe_to_seconds w' tf.
Proof. intros H. unfold timeframe_to_seconds. by rewrite H. Qed.

Lemma scan_page_now env w w' l txs :
  now w = now w' -> scan_page env w l txs = scan_page env w' l txs.
Proof.
  intros H. revert txs. induction l as [|tx l IH]; intros txs; [done|]. simpl.
  assert (scan_record env w tx txs = scan_record env w' tx txs) as ->.
  { unfold scan_record, time_time. by rewrite (timeframe_to_seconds_now w w' _ H), H. }
  destruct (scan_record env w' tx txs) as [[txs'|]|e]; auto.
Qed.

Lemma in_window_now env w w' ev :
  now w = now w' -> in_window env w ev -> in_window env w' ev.
Proof.
  intros H (secs & Hs & Hw). exists secs. unfold time_time in *.
  by rewrite <- (timeframe_to_seconds_now w w' _ H), <- H.
Qed.

(** X23.  Whatever the peer answers, over any number of pages: when the
    paging returns, it returns the events it was given followed by events
    that each come from a two-leg ["unknown"] record and are not older than
    the window; it has issued at most one request per page and has not
    touched the price cache. *)
Theorem history_loop_sound (fuel : nat) (env : history_env) (w : world) (wallet : string)
    (txs : list Event.t) (lastTx : json) (w' : world) (txs' : list Event.t) :
  history_loop fuel env w wallet txs lastTx = Some (w', Ok txs') ->
  (exists added,
      txs' = txs ++ added
      /\ Forall (fun ev => in_window env w ev /\ exists tx, normalised_from env tx ev)
           added)
  /\ token_prices w' = token_prices w
  /\ (length (requests w) < length (requests w') <= length (requests w) + fuel)%nat.
Proof.
  revert w txs lastTx. induction fuel as [|fuel IH]; intros w txs lastTx; [done|].
  simpl.
  set (w1 := log_request (page_url env wallet lastTx) w).
  assert (now w = now w1) as Hnow by done.
  assert (length (requests w1) = S (length (requests w))) as Hreq.
  { unfold w1. simpl. rewrite length_app. simpl. lia. }
  assert (Some (w1, Ok txs) = Some (w', Ok txs') ->
          (exists added, txs' = txs ++ added /\
             Forall (fun ev => in_window env w ev /\ exists tx, normalised_from env tx ev)
               added)
          /\ token_prices w' = token_prices w
          /\ (length (requests w) < length (requests w')
              <= length (requests w) + S fuel)%nat) as Hbreak.
  { intros [= <- <-]. split; [exists []; by rewrite app_nil_r|]. split; [done|lia]. }
  destruct (server w (requests w) _) as [[status body]|?]; [|done].
  destruct (decide (status = 200)); [|exact Hbreak].
  destruct body as [data|?]; simpl; [|done].
  destruct (truthy data); [|exact Hbreak].
  destruct (dict_get data "success" JNull) as [ok|?]; [|done].
  destruct (truthy ok); [|exact Hbreak].
  destruct (dict_item data "data") as [d|?]; simpl; [|done].
  destruct (dict_get d "solana" (JArr [])) as [transactions|?]; simpl; [|done].
  destruct (page_records transactions) as [l|?]; simpl; [|done].
  destruct (last_hash l) as [h|?]; simpl; [|done].
  destruct (scan_page_added env w1 l txs) as (added & Hadd & Hall).
  destruct (scan_page env w1 l txs) as [txs1 eol]. simpl in Hadd. subst txs1.
  assert (Forall (fun ev => in_window env w ev /\ exists tx, normalised_from env tx ev)
            added) as Hall'.
  { eapply Forall_impl; [exact Hall|]. intros ev (Hw & tx & Hn).
    split; [by eapply in_window_now | eauto]. }
  destruct (eol || bool_decide (length l < 1000)%nat).
  - intros [= <- <-]. split; [eauto|]. split; [done|lia].
  - intros H. apply IH in H as ((added' & -> & Hall2) & Hc & Hr).
    split.
    + exists (added ++ added'). rewrite app_assoc. split; [done|].
      apply Forall_app. split; [done|].
      eapply Forall_impl; [exact Hall2|]. intros ev (Hw & Hn).
      split; [by eapply in_window_now | done].
    + split; [done|]. lia.
Qed.

Lemma history_loop_sound_witness :
  exists w' txs',
    history_loop 1 demo_env demo_page_world "abc" [] JNull = Some (w', Ok txs')
    /\ token_prices w' = ∅
    /\ Forall (fun ev => in_window demo_env demo_page_world ev
                 /\ exists tx, normalised_from demo_env tx ev) txs'.
Proof.
  destruct (history_loop 1 demo_env demo_page_world "abc" [] JNull)
    as [[w' [txs'|e]]|] eqn:E; [|exfalso; vm_compute in E; discriminate E..].
  exists w', txs'. split; [done|].
  destruct (history_loop_sound _ _ _ _ _ _ _ _ E) as ((added & -> & Hall) & Hc & _).
  split; [exact Hc | exact Hall].
Defined.

(** X24.  With a timeframe on which [timeframe_to_seconds] raises (such as
    ["5mi"]), the paging collects nothing, however many pages the peer
    serves: what it returns is what it was given, so [wallet_history] hands
    [calculate] an empty sequence. *)
Theorem history_with_bad_timeframe (fuel : nat) (env : history_env) (w : world)
    (wallet : string) (txs : list Event.t) (lastTx : json) (e : exn)
    (w' : world) (txs' : list Event.t) :
  timeframe_to_seconds w (timeframe env) = Raise e ->
  history_loop fuel env w wallet txs lastTx = Some (w', Ok txs') ->
  txs' = txs.
Proof.
  revert w lastTx. induction fuel as [|fuel IH]; intros w lastTx He; [done|].
  simpl.
  set (w1 := log_request (page_url env wallet lastTx) w).
  assert (timeframe_to_seconds w1 (timeframe env) = Raise e) as He1.
  { by rewrite <- (timeframe_to_seconds_now w w1). }
  destruct (server w (requests w) _) as [[status body]|?]; [|done].
  destruct (decide (status = 200)); [|by intros [= _ <-]].
  destruct body as [data|?]; simpl; [|done].
  destruct (truthy data); [|by intros [= _ <-]].
  destruct (dict_get data "success" JNull) as [ok|?]; [|done].
  destruct (truthy ok); [|by intros [= _ <-]].
  destruct (dict_item data "data") as [d|?]; simpl; [|done].
  destruct (dict_get d "solana" (JArr [])) as [transactions|?]; simpl; [|done].
  destruct (page_records transactions) as [l|?]; simpl; [|done].
  destruct (last_hash l) as [h|?]; simpl; [|done].
  assert (scan_page env w1 l txs = (txs, false)) as ->.
  { clear -He1. induction l as [|tx l IHl]; [done|]. simpl.
    by destruct (scan_record_bad_timeframe env w1 tx txs e He1) as [e' ->]. }
  simpl.
  destruct (bool_decide (length l < 1000)%nat); [by intros [= _ <-]|].
  by apply IH.
Qed.

Lemma history_with_bad_timeframe_witness :
  exists w',
    history_loop 3
      {| isoparse := isoparse demo_env; str_of := str_of demo_env;
         frac_pow10 := frac_pow10 demo_env; time_fraction := 0%Qc; timeframe := "5mi" |}
      demo_page_world "abc" [] JNull = Some (w', Ok []).
Proof.
  set (env := {| isoparse := isoparse demo_env; str_of := str_of demo_env;
                 frac_pow10 := frac_pow10 demo_env; time_fraction := 0%Qc;
                 timeframe := "5mi" |}).
  destruct (history_loop 3 env demo_page_world "abc" [] JNull)
    as [[w' [txs'|e]]|] eqn:E; [|exfalso; vm_compute in E; discriminate E..].
  exists w'. f_equal. f_equal. f_equal.
  apply (history_with_bad_timeframe 3 env demo_page_world "abc" [] JNull ValueError w');
    [vm_compute; reflexivity | exact E].
Defined.

Lemma qualified_wallets_type_error_witness :
  qualified_wallets ["a"; "b"] [JNum (Qc_of_Z 500); JNull] (Qc_of_Z 100) = Raise TypeError.
Proof.
  apply qualified_wallets_type_error. simpl.
  apply Exists_cons_tl, Exists_cons_hd. reflexivity.
Defined.
